(** * Realtime chat client: message store, typing presence, payload cipher

    Shallow embedding of [src/components/enhanced-chat-app.tsx]: the React
    component's state, its socket event handlers, its UI callbacks and the
    timer behind the typing indicator, together with a model of the
    passphrase-based AES of the crypto-js library the component calls.

    Conventions.
    - A JavaScript string is a Rocq [string] holding its UTF-8 encoding (the
      convention of Rocq's own string literals).  A JavaScript string with an
      unpaired surrogate has no UTF-8 encoding; it is written here in the
      generalised form (three bytes ED A0..BF xx), which [valid_utf8] rejects.
    - A crypto-js [WordArray] is the list of its significant bytes.
    - A call that may throw returns a [completion].
    - Random draws of the library ([WordArray.random]) are explicit
      arguments.
    - Time is a clock in milliseconds kept beside the hooks, with the
      pending timeouts and a log of the events emitted on the socket. *)

From Stdlib Require Import ZArith List String Ascii Bool Lia Btauto.
Import ListNotations.

Local Open Scope string_scope.
Local Open Scope Z_scope.
Local Open Scope list_scope.

(** ** JavaScript completions *)

Inductive JsError : Type :=
| URIError
| Error (msg : string).

Inductive completion (A : Type) : Type :=
| Normal (a : A)
| Throw (e : JsError).

Arguments Normal {A} a.
Arguments Throw {A} e.

Definition bind {A B : Type} (c : completion A) (k : A -> completion B)
  : completion B :=
  match c with
  | Normal a => k a
  | Throw e => Throw e
  end.

Notation "'do' x <- c ; k" := (bind c (fun x => k))
  (at level 10, x name, c at level 100, k at level 200).

(** ** Bytes *)

Definition byte : Type := ascii.
Definition bytes : Type := list byte.

Definition b2z (b : byte) : Z := Z.of_N (N_of_ascii b).
Definition z2b (z : Z) : byte := ascii_of_N (Z.to_N (z mod 256)).

Definition bytes_of_string (s : string) : bytes := list_ascii_of_string s.
Definition string_of_bytes (bs : bytes) : string := string_of_list_ascii bs.

Definition byte_eqb (a b : byte) : bool := Ascii.eqb a b.

Fixpoint bytes_eqb (x y : bytes) : bool :=
  match x, y with
  | [], [] => true
  | a :: x', b :: y' => byte_eqb a b && bytes_eqb x' y'
  | _, _ => false
  end.

Definition bxor (a b : byte) : byte :=
  match a, b with
  | Ascii a0 a1 a2 a3 a4 a5 a6 a7, Ascii b0 b1 b2 b3 b4 b5 b6 b7 =>
      Ascii (xorb a0 b0) (xorb a1 b1) (xorb a2 b2) (xorb a3 b3)
            (xorb a4 b4) (xorb a5 b5) (xorb a6 b6) (xorb a7 b7)
  end.

(** [xorBlock]: byte-wise xor of two blocks, as long as the first. *)
Fixpoint xor_bytes (x y : bytes) : bytes :=
  match x, y with
  | a :: x', b :: y' => bxor a b :: xor_bytes x' y'
  | _, _ => x
  end.

(** ** Module CryptoJS: the library calls of the component

    crypto-js is a dependency of the repository, not part of it.  The model
    follows its default configuration for [CryptoJS.AES.encrypt] and
    [CryptoJS.AES.decrypt] with a string passphrase: OpenSSL key derivation
    (EvpKDF, MD5, one iteration), AES-256 in CBC mode, PKCS#7 padding, and
    the OpenSSL string format (Base64 of "Salted__", the salt, the
    ciphertext). *)

Module CryptoJS.

(** *** enc.Utf8 *)

Definition in_range (lo hi : Z) (b : byte) : bool :=
  (lo <=? b2z b) && (b2z b <=? hi).

Definition cont (b : byte) : bool := in_range 0x80 0xBF b.

(** Well-formed UTF-8 byte sequences (Unicode, table 3-7): what
    [decodeURIComponent] accepts and what [encodeURIComponent] can produce. *)
Fixpoint valid_utf8 (bs : bytes) : bool :=
  match bs with
  | [] => true
  | b0 :: r0 =>
      if in_range 0x00 0x7F b0 then valid_utf8 r0
      else
        match r0 with
        | [] => false
        | b1 :: r1 =>
            if in_range 0xC2 0xDF b0 then cont b1 && valid_utf8 r1
            else
              match r1 with
              | [] => false
              | b2 :: r2 =>
                  if in_range 0xE0 0xEF b0 then
                    (if in_range 0xE0 0xE0 b0 then in_range 0xA0 0xBF b1
                     else if in_range 0xED 0xED b0 then in_range 0x80 0x9F b1
                     else cont b1)
                    && cont b2 && valid_utf8 r2
                  else
                    match r2 with
                    | [] => false
                    | b3 :: r3 =>
                        if in_range 0xF0 0xF4 b0 then
                          (if in_range 0xF0 0xF0 b0 then in_range 0x90 0xBF b1
                           else if in_range 0xF4 0xF4 b0
                                then in_range 0x80 0x8F b1
                           else cont b1)
                          && cont b2 && cont b3 && valid_utf8 r3
                        else false
                    end
              end
        end
  end.

Module Utf8.

(** [Latin1.parse(unescape(encodeURIComponent(str)))]: the UTF-8 bytes of
    the string; [encodeURIComponent] throws on an unpaired surrogate. *)
Definition parse (str : string) : completion bytes :=
  if valid_utf8 (bytes_of_string str)
  then Normal (bytes_of_string str)
  else Throw URIError.

(** [decodeURIComponent(escape(Latin1.stringify(wordArray)))] inside a
    [try], the [catch] throwing [new Error('Malformed UTF-8 data')]. *)
Definition stringify (wordArray : bytes) : completion string :=
  if valid_utf8 wordArray
  then Normal (string_of_bytes wordArray)
  else Throw (Error "Malformed UTF-8 data").

End Utf8.

(** *** MD5 (RFC 1321), the hasher of the key derivation *)

Module MD5.

Definition w32 (x : Z) : Z := x mod 0x100000000.

Definition rotl (x n : Z) : Z :=
  w32 (Z.lor (Z.shiftl x n) (Z.shiftr x (32 - n))).

Definition not32 (x : Z) : Z := Z.lxor x 0xFFFFFFFF.

Definition T : list Z :=
  [ 0xd76aa478; 0xe8c7b756; 0x242070db; 0xc1bdceee;
    0xf57c0faf; 0x4787c62a; 0xa8304613; 0xfd469501;
    0x698098d8; 0x8b44f7af; 0xffff5bb1; 0x895cd7be;
    0x6b901122; 0xfd987193; 0xa679438e; 0x49b40821;
    0xf61e2562; 0xc040b340; 0x265e5a51; 0xe9b6c7aa;
    0xd62f105d; 0x02441453; 0xd8a1e681; 0xe7d3fbc8;
    0x21e1cde6; 0xc33707d6; 0xf4d50d87; 0x455a14ed;
    0xa9e3e905; 0xfcefa3f8; 0x676f02d9; 0x8d2a4c8a;
    0xfffa3942; 0x8771f681; 0x6d9d6122; 0xfde5380c;
    0xa4beea44; 0x4bdecfa9; 0xf6bb4b60; 0xbebfbc70;
    0x289b7ec6; 0xeaa127fa; 0xd4ef3085; 0x04881d05;
    0xd9d4d039; 0xe6db99e5; 0x1fa27cf8; 0xc4ac5665;
    0xf4292244; 0x432aff97; 0xab9423a7; 0xfc93a039;
    0x655b59c3; 0x8f0ccc92; 0xffeff47d; 0x85845dd1;
    0x6fa87e4f; 0xfe2ce6e0; 0xa3014314; 0x4e0811a1;
    0xf7537e82; 0xbd3af235; 0x2ad7d2bb; 0xeb86d391 ].

Definition S : list Z :=
  [ 7; 12; 17; 22; 7; 12; 17; 22; 7; 12; 17; 22; 7; 12; 17; 22;
    5; 9; 14; 20; 5; 9; 14; 20; 5; 9; 14; 20; 5; 9; 14; 20;
    4; 11; 16; 23; 4; 11; 16; 23; 4; 11; 16; 23; 4; 11; 16; 23;
    6; 10; 15; 21; 6; 10; 15; 21; 6; 10; 15; 21; 6; 10; 15; 21 ].

(** Little-endian 32-bit words of a byte sequence. *)
Fixpoint words_le (bs : bytes) : list Z :=
  match bs with
  | b0 :: b1 :: b2 :: b3 :: r =>
      (b2z b0 + 256 * (b2z b1 + 256 * (b2z b2 + 256 * b2z b3)))
        :: words_le r
  | _ => []
  end.

Fixpoint le_bytes (n : nat) (x : Z) : bytes :=
  match n with
  | O => []
  | Datatypes.S n' => z2b x :: le_bytes n' (x / 256)
  end.

Definition pad (msg : bytes) : bytes :=
  let len := Z.of_nat (List.length msg) in
  let zeros := Z.to_nat ((55 - len) mod 64) in
  msg ++ z2b 0x80 :: repeat (z2b 0) zeros ++ le_bytes 8 (8 * len).

Definition round (M : list Z) (st : Z * Z * Z * Z) (i : nat)
  : Z * Z * Z * Z :=
  let '(a, b, c, d) := st in
  let iz := Z.of_nat i in
  let '(f, g) :=
    if iz <? 16 then (Z.lor (Z.land b c) (Z.land (not32 b) d), iz)
    else if iz <? 32 then
      (Z.lor (Z.land d b) (Z.land (not32 d) c), (5 * iz + 1) mod 16)
    else if iz <? 48 then (Z.lxor b (Z.lxor c d), (3 * iz + 5) mod 16)
    else (Z.lxor c (Z.lor b (not32 d)), (7 * iz) mod 16) in
  let f' := w32 (f + a + nth i T 0 + nth (Z.to_nat g) M 0) in
  (d, w32 (b + rotl f' (nth i S 0)), b, c).

Definition block (st : Z * Z * Z * Z) (M : list Z) : Z * Z * Z * Z :=
  let '(a0, b0, c0, d0) := st in
  let '(a, b, c, d) := fold_left (round M) (seq 0 64) st in
  (w32 (a0 + a), w32 (b0 + b), w32 (c0 + c), w32 (d0 + d)).

Fixpoint chunks (n : nat) (ws : list Z) : list (list Z) :=
  match n with
  | O => []
  | Datatypes.S n' =>
      match ws with
      | [] => []
      | _ => firstn 16 ws :: chunks n' (skipn 16 ws)
      end
  end.

Definition hash (msg : bytes) : bytes :=
  let ws := words_le (pad msg) in
  let '(a, b, c, d) :=
    fold_left block (chunks (List.length ws) ws)
              (0x67452301, 0xefcdab89, 0x98badcfe, 0x10325476) in
  le_bytes 4 a ++ le_bytes 4 b ++ le_bytes 4 c ++ le_bytes 4 d.

End MD5.

(** *** The AES block cipher (FIPS 197)

    crypto-js builds its tables at load time from the doubling map of
    GF(2^8) and runs the cipher on 32-bit columns through them; the inverse
    cipher is its table-driven equivalent form.  The functions below are the
    ones those tables implement. *)

Module algo_AES.

Definition zero : byte := z2b 0.

(** The doubling table [d]: [i << 1] below 128, [(i << 1) ^ 0x11b] above. *)
Definition xtime (a : byte) : byte :=
  match a with
  | Ascii b0 b1 b2 b3 b4 b5 b6 b7 =>
      Ascii b7 (xorb b0 b7) b1 (xorb b2 b7) (xorb b3 b7) b4 b5 b6
  end.

Definition gmul (a b : byte) : byte :=
  match b with
  | Ascii b0 b1 b2 b3 b4 b5 b6 b7 =>
      let pick (c : bool) (x : byte) := if c then x else zero in
      let a1 := xtime a in
      let a2 := xtime a1 in
      let a3 := xtime a2 in
      let a4 := xtime a3 in
      let a5 := xtime a4 in
      let a6 := xtime a5 in
      let a7 := xtime a6 in
      bxor (pick b0 a)
        (bxor (pick b1 a1)
           (bxor (pick b2 a2)
              (bxor (pick b3 a3)
                 (bxor (pick b4 a4)
                    (bxor (pick b5 a5)
                       (bxor (pick b6 a6) (pick b7 a7)))))))
  end.

(** Multiplicative inverse, [a^254], with 0 sent to 0. *)
Definition ginv (a : byte) : byte :=
  let a2 := gmul a a in
  let a4 := gmul a2 a2 in
  let a8 := gmul a4 a4 in
  let a16 := gmul a8 a8 in
  let a32 := gmul a16 a16 in
  let a64 := gmul a32 a32 in
  let a128 := gmul a64 a64 in
  gmul a128 (gmul a64 (gmul a32 (gmul a16 (gmul a8 (gmul a4 a2))))).

Definition rotl1 (a : byte) : byte :=
  match a with
  | Ascii b0 b1 b2 b3 b4 b5 b6 b7 => Ascii b7 b0 b1 b2 b3 b4 b5 b6
  end.

(** [sx = xi ^ (xi << 1) ^ (xi << 2) ^ (xi << 3) ^ (xi << 4)], folded
    back to eight bits, [^ 0x63]. *)
Definition sbox_of (x : byte) : byte :=
  let xi := ginv x in
  let r1 := rotl1 xi in
  let r2 := rotl1 r1 in
  let r3 := rotl1 r2 in
  let r4 := rotl1 r3 in
  bxor xi (bxor r1 (bxor r2 (bxor r3 (bxor r4 (z2b 0x63))))).

Definition all_bytes : bytes := map ascii_of_nat (seq 0 256).

Definition SBOX : bytes := Eval vm_compute in map sbox_of all_bytes.

Definition Sub (a : byte) : byte := nth (nat_of_ascii a) SBOX zero.

(** [INV_SBOX[sx] = x]. *)
Definition inv_sbox_of (sx : byte) : byte :=
  match find (fun x => byte_eqb (Sub x) sx) all_bytes with
  | Some x => x
  | None => zero
  end.

Definition INV_SBOX : bytes := Eval vm_compute in map inv_sbox_of all_bytes.

Definition InvSub (a : byte) : byte := nth (nat_of_ascii a) INV_SBOX zero.

Definition mul2 (a : byte) : byte := xtime a.
Definition mul3 (a : byte) : byte := bxor (xtime a) a.
Definition mul9 (a : byte) : byte := bxor (xtime (xtime (xtime a))) a.
Definition mul11 (a : byte) : byte :=
  bxor (xtime (xtime (xtime a))) (bxor (xtime a) a).
Definition mul13 (a : byte) : byte :=
  bxor (xtime (xtime (xtime a))) (bxor (xtime (xtime a)) a).
Definition mul14 (a : byte) : byte :=
  bxor (xtime (xtime (xtime a))) (bxor (xtime (xtime a)) (xtime a)).

Definition bxor4 (a b c d : byte) : byte := bxor a (bxor b (bxor c d)).

(** A state is the 16 bytes of a block, column after column. *)
Definition SubBytes (st : bytes) : bytes := map Sub st.
Definition InvSubBytes (st : bytes) : bytes := map InvSub st.

Definition ShiftRows (st : bytes) : bytes :=
  match st with
  | [s0; s1; s2; s3; s4; s5; s6; s7; s8; s9; s10; s11; s12; s13; s14; s15] =>
      [s0; s5; s10; s15; s4; s9; s14; s3; s8; s13; s2; s7; s12; s1; s6; s11]
  | _ => st
  end.

Definition InvShiftRows (st : bytes) : bytes :=
  match st with
  | [s0; s1; s2; s3; s4; s5; s6; s7; s8; s9; s10; s11; s12; s13; s14; s15] =>
      [s0; s13; s10; s7; s4; s1; s14; s11; s8; s5; s2; s15; s12; s9; s6; s3]
  | _ => st
  end.

Fixpoint MixColumns (st : bytes) : bytes :=
  match st with
  | a0 :: a1 :: a2 :: a3 :: r =>
      bxor4 (mul2 a0) (mul3 a1) a2 a3
        :: bxor4 a0 (mul2 a1) (mul3 a2) a3
        :: bxor4 a0 a1 (mul2 a2) (mul3 a3)
        :: bxor4 (mul3 a0) a1 a2 (mul2 a3)
        :: MixColumns r
  | _ => st
  end.

Fixpoint InvMixColumns (st : bytes) : bytes :=
  match st with
  | a0 :: a1 :: a2 :: a3 :: r =>
      bxor4 (mul14 a0) (mul11 a1) (mul13 a2) (mul9 a3)
        :: bxor4 (mul9 a0) (mul14 a1) (mul11 a2) (mul13 a3)
        :: bxor4 (mul13 a0) (mul9 a1) (mul14 a2) (mul11 a3)
        :: bxor4 (mul11 a0) (mul13 a1) (mul9 a2) (mul14 a3)
        :: InvMixColumns r
  | _ => st
  end.

Definition RCON : bytes :=
  map z2b [0x00; 0x01; 0x02; 0x04; 0x08; 0x10; 0x20; 0x40; 0x80; 0x1b; 0x36].

Definition RotWord (w : bytes) : bytes :=
  match w with
  | a :: r => r ++ [a]
  | [] => []
  end.

Definition xor_rcon (w : bytes) (rc : byte) : bytes :=
  match w with
  | a :: r => bxor a rc :: r
  | [] => []
  end.

(** [_doReset]: the key schedule, one 4-byte row per step.  [keySize] is
    the number of 32-bit words of the key, [ks] the rows computed so far. *)
Fixpoint expand (steps : nat) (keySize ksRow : nat) (ks : list bytes)
  : list bytes :=
  match steps with
  | O => ks
  | S steps' =>
      let t := nth (ksRow - 1) ks [] in
      let t' :=
        if (ksRow mod keySize =? 0)%nat then
          xor_rcon (map Sub (RotWord t)) (nth (ksRow / keySize) RCON zero)
        else if ((6 <? keySize) && (ksRow mod keySize =? 4))%nat then
          map Sub t
        else t in
      expand steps' keySize (S ksRow)
             (ks ++ [xor_bytes (nth (ksRow - keySize) ks []) t'])
  end.

Fixpoint rows (n : nat) (bs : bytes) : list bytes :=
  match n with
  | O => []
  | S n' => firstn 4 bs :: rows n' (skipn 4 bs)
  end.

Fixpoint round_keys (n : nat) (ks : list bytes) : list bytes :=
  match n with
  | O => []
  | S n' => List.concat (firstn 4 ks) :: round_keys n' (skipn 4 ks)
  end.

(** The round keys of a key: [nRounds = keySize + 6], and
    [(nRounds + 1) * 4] rows. *)
Definition keySchedule (key : bytes) : list bytes :=
  let keySize := (List.length key / 4)%nat in
  let nRounds := (keySize + 6)%nat in
  let ksRows := ((nRounds + 1) * 4)%nat in
  round_keys (nRounds + 1)
    (expand (ksRows - keySize) keySize keySize (rows keySize key)).

Definition AddRoundKey (st rk : bytes) : bytes := xor_bytes st rk.

Definition enc_round (st rk : bytes) : bytes :=
  AddRoundKey (MixColumns (ShiftRows (SubBytes st))) rk.

Definition dec_round (st rk : bytes) : bytes :=
  InvMixColumns (AddRoundKey (InvSubBytes (InvShiftRows st)) rk).

(** [encryptBlock] under the round keys [rk0 :: mid ++ [rkN]]. *)
Definition encryptBlock (rks : list bytes) (block : bytes) : bytes :=
  match rks with
  | [] => block
  | rk0 :: rest =>
      let mid := removelast rest in
      let rkN := last rest [] in
      AddRoundKey
        (ShiftRows (SubBytes (fold_left enc_round mid
                                        (AddRoundKey block rk0))))
        rkN
  end.

Definition decryptBlock (rks : list bytes) (block : bytes) : bytes :=
  match rks with
  | [] => block
  | rk0 :: rest =>
      let mid := removelast rest in
      let rkN := last rest [] in
      AddRoundKey
        (InvSubBytes (InvShiftRows (fold_left dec_round (rev mid)
                                              (AddRoundKey block rkN))))
        rk0
  end.

End algo_AES.

(** *** enc.Base64 *)

Module Base64.

Definition _map : string :=
  "ABCDEFGHIJKLMNOPQRSTUVWXYZabcdefghijklmnopqrstuvwxyz0123456789+/=".

Definition paddingChar : byte := "="%char.

(** A 6-bit value is a byte whose two high bits are clear. *)
Definition charAt (v : byte) : byte :=
  nth (nat_of_ascii v) (bytes_of_string _map) algo_AES.zero.

(** [(triplet >>> (6 * (3 - j))) & 0x3f] for [j = 0 .. 3], where
    [triplet = (byte1 << 16) | (byte2 << 8) | byte3]. *)
Definition sextet0 (x : byte) : byte :=
  match x with
  | Ascii _ _ x2 x3 x4 x5 x6 x7 => Ascii x2 x3 x4 x5 x6 x7 false false
  end.

Definition sextet1 (x y : byte) : byte :=
  match x, y with
  | Ascii x0 x1 _ _ _ _ _ _, Ascii _ _ _ _ y4 y5 y6 y7 =>
      Ascii y4 y5 y6 y7 x0 x1 false false
  end.

Definition sextet2 (y z : byte) : byte :=
  match y, z with
  | Ascii y0 y1 y2 y3 _ _ _ _, Ascii _ _ _ _ _ _ z6 z7 =>
      Ascii z6 z7 y0 y1 y2 y3 false false
  end.

Definition sextet3 (z : byte) : byte :=
  match z with
  | Ascii z0 z1 z2 z3 z4 z5 _ _ => Ascii z0 z1 z2 z3 z4 z5 false false
  end.

Definition is_sextet (v : byte) : bool :=
  match v with
  | Ascii _ _ _ _ _ _ false false => true
  | _ => false
  end.

(** Three bytes give four characters; the inner loop stops at
    [i + j * 0.75 >= sigBytes], and the result is padded to a multiple of
    four characters. *)
Fixpoint stringify_chars (wordArray : bytes) : bytes :=
  match wordArray with
  | [] => []
  | [x] =>
      [charAt (sextet0 x); charAt (sextet1 x algo_AES.zero);
       paddingChar; paddingChar]
  | [x; y] =>
      [charAt (sextet0 x); charAt (sextet1 x y);
       charAt (sextet2 y algo_AES.zero); paddingChar]
  | x :: y :: z :: r =>
      charAt (sextet0 x) :: charAt (sextet1 x y)
        :: charAt (sextet2 y z) :: charAt (sextet3 z)
        :: stringify_chars r
  end.

Definition stringify (wordArray : bytes) : string :=
  string_of_bytes (stringify_chars wordArray).

(** The UTF-16 code units of a string, as far as the decoder tells them
    apart: [Some c] for an ASCII character, [None] for any other unit
    (one for a two- or three-byte sequence, two for a four-byte one). *)
Fixpoint units (bs : bytes) : list (option byte) :=
  match bs with
  | [] => []
  | b :: r =>
      if in_range 0x00 0x7F b then Some b :: units r
      else if in_range 0x80 0xBF b then units r
      else if in_range 0xC0 0xEF b then None :: units r
      else None :: None :: units r
  end.

Fixpoint index_of (c : byte) (i : nat) (l : bytes) : option nat :=
  match l with
  | [] => None
  | x :: r => if byte_eqb x c then Some i else index_of c (S i) r
  end.

(** [reverseMap[base64Str.charCodeAt(i)]]; an entry that is missing is
    [undefined], which the shifts read as 0. *)
Definition reverseMap (u : option byte) : byte :=
  match u with
  | Some c =>
      match index_of c 0 (bytes_of_string _map) with
      | Some i => ascii_of_nat i
      | None => algo_AES.zero
      end
  | None => algo_AES.zero
  end.

(** The byte written at step [i] of [parseLoop], for [i % 4] = 1, 2, 3:
    [(reverseMap[c(i-1)] << ((i % 4) * 2)) | (reverseMap[c(i)] >>> (6 - (i % 4) * 2))]. *)
Definition byte1 (v0 v1 : byte) : byte :=
  match v0, v1 with
  | Ascii a0 a1 a2 a3 a4 a5 _ _, Ascii _ _ _ _ b4 b5 _ _ =>
      Ascii b4 b5 a0 a1 a2 a3 a4 a5
  end.

Definition byte2 (v1 v2 : byte) : byte :=
  match v1, v2 with
  | Ascii b0 b1 b2 b3 _ _ _ _, Ascii _ _ c2 c3 c4 c5 _ _ =>
      Ascii c2 c3 c4 c5 b0 b1 b2 b3
  end.

Definition byte3 (v2 v3 : byte) : byte :=
  match v2, v3 with
  | Ascii c0 c1 _ _ _ _ _ _, Ascii d0 d1 d2 d3 d4 d5 _ _ =>
      Ascii d0 d1 d2 d3 d4 d5 c0 c1
  end.

Fixpoint parseLoop (cs : list (option byte)) : bytes :=
  match cs with
  | c0 :: c1 :: c2 :: c3 :: r =>
      byte1 (reverseMap c0) (reverseMap c1)
        :: byte2 (reverseMap c1) (reverseMap c2)
        :: byte3 (reverseMap c2) (reverseMap c3)
        :: parseLoop r
  | [c0; c1; c2] =>
      [byte1 (reverseMap c0) (reverseMap c1);
       byte2 (reverseMap c1) (reverseMap c2)]
  | [c0; c1] => [byte1 (reverseMap c0) (reverseMap c1)]
  | _ => []
  end.

(** Everything from the first padding character on is ignored. *)
Fixpoint before_padding (cs : list (option byte)) : list (option byte) :=
  match cs with
  | [] => []
  | Some c :: r =>
      if byte_eqb c paddingChar then [] else Some c :: before_padding r
  | None :: r => None :: before_padding r
  end.

Definition parse (base64Str : string) : bytes :=
  parseLoop (before_padding (units (bytes_of_string base64Str))).

End Base64.

(** *** cipher-core: parameters, format, padding, mode, key derivation *)

Record CipherParams : Type := {
  ciphertext : bytes;
  salt : option bytes;
  key : bytes;
  iv : bytes
}.

Module OpenSSL.

Definition magic : bytes := bytes_of_string "Salted__".

Definition stringify (cipherParams : CipherParams) : string :=
  match salt cipherParams with
  | Some s => Base64.stringify (magic ++ s ++ ciphertext cipherParams)
  | None => Base64.stringify (ciphertext cipherParams)
  end.

(** The salt is words 2 and 3 of the decoded array, as far as they exist;
    the ciphertext is what follows the first four words. *)
Definition parse (openSSLStr : string) : CipherParams :=
  let decoded := Base64.parse openSSLStr in
  if bytes_eqb (firstn 8 decoded) magic then
    let n := List.length decoded in
    let words := decoded ++ repeat algo_AES.zero ((4 - n mod 4) mod 4) in
    {| ciphertext := skipn 16 decoded;
       salt := Some (firstn 8 (skipn 8 words));
       key := []; iv := [] |}
  else
    {| ciphertext := decoded; salt := None; key := []; iv := [] |}.

End OpenSSL.

Module Pkcs7.

Definition blockSizeBytes : nat := 16.

Definition pad (data : bytes) : bytes :=
  let nPaddingBytes :=
    (blockSizeBytes - List.length data mod blockSizeBytes)%nat in
  data ++ repeat (ascii_of_nat nPaddingBytes) nPaddingBytes.

(** [nPaddingBytes = data.words[(data.sigBytes - 1) >>> 2] & 0xff]: the
    low byte of the word holding the last significant byte; nothing
    checks it.  [processed] holds whole blocks, [sigBytes] of its bytes
    are significant. *)
Definition unpad (processed : bytes) (sigBytes : nat) : bytes :=
  let nPaddingBytes :=
    match sigBytes with
    | O => 0%nat
    | S m => nat_of_ascii (nth (m / 4 * 4 + 3) processed algo_AES.zero)
    end in
  firstn (sigBytes - nPaddingBytes) processed.

End Pkcs7.

(** Cut into the whole blocks that are ready when flushing: the last one
    is filled up with zero bytes. *)
Fixpoint blocks (n : nat) (data : bytes) : list bytes :=
  match n with
  | O => []
  | S n' =>
      match data with
      | [] => []
      | _ =>
          let b := firstn 16 data in
          (b ++ repeat algo_AES.zero (16 - List.length b))
            :: blocks n' (skipn 16 data)
      end
  end.

Module CBC.

Fixpoint encrypt (rks : list bytes) (prevBlock : bytes) (bl : list bytes)
  : list bytes :=
  match bl with
  | [] => []
  | b :: r =>
      let c := algo_AES.encryptBlock rks (xor_bytes b prevBlock) in
      c :: encrypt rks c r
  end.

Fixpoint decrypt (rks : list bytes) (prevBlock : bytes) (bl : list bytes)
  : list bytes :=
  match bl with
  | [] => []
  | thisBlock :: r =>
      xor_bytes (algo_AES.decryptBlock rks thisBlock) prevBlock
        :: decrypt rks thisBlock r
  end.

End CBC.

Module EvpKDF.

(** [compute]: MD5 blocks chained over the password and the salt until
    [keySize] words are there (one iteration each). *)
Fixpoint loop (fuel : nat) (keySize : nat) (password saltBytes : bytes)
         (block derivedKey : bytes) : bytes :=
  match fuel with
  | O => derivedKey
  | S fuel' =>
      if (List.length derivedKey / 4 <? keySize)%nat then
        let block' := MD5.hash (block ++ password ++ saltBytes) in
        loop fuel' keySize password saltBytes block' (derivedKey ++ block')
      else derivedKey
  end.

Definition compute (keySize : nat) (password saltBytes : bytes) : bytes :=
  firstn (keySize * 4) (loop keySize keySize password saltBytes [] []).

End EvpKDF.

(** [WordArray.random(nBytes)] over an entropy stream. *)
Definition random (rnd : nat -> byte) (nBytes : nat) : bytes :=
  map rnd (seq 0 nBytes).

(** The passphrase helpers [CryptoJS.AES.encrypt] and [CryptoJS.AES.decrypt]:
    key size 8 words, IV size 4 words. *)
Module AES.

Definition keySize : nat := 8.
Definition ivSize : nat := 4.

Definition derive (password : string) (saltBytes : bytes)
  : completion (bytes * bytes) :=
  do pw <- Utf8.parse password;
  let derived := EvpKDF.compute (keySize + ivSize) pw saltBytes in
  Normal (firstn (keySize * 4) derived, skipn (keySize * 4) derived).

Definition encrypt (rnd : nat -> byte) (message password : string)
  : completion CipherParams :=
  let saltBytes := random rnd 8 in
  do ki <- derive password saltBytes;
  do data <- Utf8.parse message;
  let padded := Pkcs7.pad data in
  let ct :=
    List.concat (CBC.encrypt (algo_AES.keySchedule (fst ki)) (snd ki)
                             (blocks (List.length padded) padded)) in
  Normal {| ciphertext := ct; salt := Some saltBytes;
            key := fst ki; iv := snd ki |}.

Definition decrypt (rnd : nat -> byte) (ciphertextStr password : string)
  : completion bytes :=
  let cp := OpenSSL.parse ciphertextStr in
  let saltBytes :=
    match salt cp with
    | Some s => s
    | None => random rnd 8
    end in
  do ki <- derive password saltBytes;
  let data := ciphertext cp in
  let processed :=
    List.concat (CBC.decrypt (algo_AES.keySchedule (fst ki)) (snd ki)
                             (blocks (List.length data) data)) in
  Normal (Pkcs7.unpad processed (List.length data)).

End AES.

End CryptoJS.

(** ** The component [EnhancedChatAppComponent] *)

(** *** String operations of the language *)

(** [===] on strings and on values that are a string or [undefined]. *)
Definition opt_string_eqb (x y : option string) : bool :=
  match x, y with
  | Some a, Some b => String.eqb a b
  | None, None => true
  | _, _ => false
  end.

(** The white space and line terminator code points that
    [String.prototype.trim] removes, in UTF-8: U+0009..U+000D, U+0020,
    U+00A0, U+1680, U+2000..U+200A, U+2028, U+2029, U+202F, U+205F, U+3000,
    U+FEFF. *)
Definition whitespace : list bytes :=
  map (map ascii_of_nat)
    [ [9]; [10]; [11]; [12]; [13]; [32]; [194; 160]; [225; 154; 128];
      [226; 128; 128]; [226; 128; 129]; [226; 128; 130]; [226; 128; 131];
      [226; 128; 132]; [226; 128; 133]; [226; 128; 134]; [226; 128; 135];
      [226; 128; 136]; [226; 128; 137]; [226; 128; 138]; [226; 128; 168];
      [226; 128; 169]; [226; 128; 175]; [226; 129; 159]; [227; 128; 128];
      [239; 187; 191] ]%nat.

Fixpoint strip_prefix (p s : bytes) : option bytes :=
  match p, s with
  | [], _ => Some s
  | a :: p', b :: s' => if byte_eqb a b then strip_prefix p' s' else None
  | _ :: _, [] => None
  end.

Fixpoint strip_any (ps : list bytes) (s : bytes) : option bytes :=
  match ps with
  | [] => None
  | p :: ps' =>
      match strip_prefix p s with
      | Some r => Some r
      | None => strip_any ps' s
      end
  end.

Fixpoint strip_all (fuel : nat) (ps : list bytes) (s : bytes) : bytes :=
  match fuel with
  | O => s
  | S fuel' =>
      match strip_any ps s with
      | Some r => strip_all fuel' ps r
      | None => s
      end
  end.

Definition trimStart (s : bytes) : bytes :=
  strip_all (List.length s) whitespace s.

Definition trimEnd (s : bytes) : bytes :=
  rev (strip_all (List.length s) (map (@rev byte) whitespace) (rev s)).

Definition trim (s : string) : string :=
  string_of_bytes (trimEnd (trimStart (bytes_of_string s))).

Fixpoint includes_bytes (s q : bytes) : bool :=
  match strip_prefix q s with
  | Some _ => true
  | None =>
      match s with
      | [] => false
      | _ :: s' => includes_bytes s' q
      end
  end.

Definition includes (s q : string) : bool :=
  includes_bytes (bytes_of_string s) (bytes_of_string q).

(** *** Types *)

Inductive MessageType : Type := text | image | video | file.

Inductive Status : Type := sent | delivered | read.

Module User.
Record t : Type := { name : string; image : string }.
End User.

(** A message as the handlers use it: the declared fields and [roomId],
    which the ['chat message'] handler reads ([undefined] when the server
    sends none). *)
Module Message.
Record t : Type := {
  id : string;
  content : string;
  type : MessageType;
  createdAt : string;
  status : Status;
  userId : string;
  user : User.t;
  roomId : option string
}.

(** [{ ...msg, content: c }] *)
Definition with_content (c : string) (msg : t) : t :=
  {| id := id msg; content := c; type := type msg;
     createdAt := createdAt msg; status := status msg;
     userId := userId msg; user := user msg; roomId := roomId msg |}.

(** [{ ...msg, status }] *)
Definition with_status (s : Status) (msg : t) : t :=
  {| id := id msg; content := content msg; type := type msg;
     createdAt := createdAt msg; status := s;
     userId := userId msg; user := user msg; roomId := roomId msg |}.
End Message.

Module Member.
Record t : Type := { id : string; name : string; image : string }.
End Member.

Module Room.
Record t : Type := { id : string; name : string; users : list Member.t }.
End Room.

Module UserProfile.
Record t : Type := {
  id : string; name : string; image : string;
  status : string; bio : string
}.
End UserProfile.

(** What the component reads from outside: the build-time variable
    [process.env.NEXT_PUBLIC_ENCRYPTION_KEY] and [session.user.id]. *)
Record Context : Type := {
  NEXT_PUBLIC_ENCRYPTION_KEY : option string;
  session_user_id : string
}.

(** Events sent with [socketRef.current.emit]. *)
Inductive Emit : Type :=
| emit_chat_message (roomId content : string) (type : MessageType)
| emit_typing (roomId : string) (isTyping : bool)
| emit_create_room (name : string) (userIds : list string)
| emit_join_room (roomId : string)
| emit_leave_room (roomId : string).

(** A pending [setTimeout] of [handleTyping]: its handle (a positive
    number in a browser; 0 would be falsy in [if (typingTimeoutRef.current)]),
    the time it is due, and the room id its callback has captured. *)
Record Timeout : Type := { handle : nat; due : Z; room : string }.

(** The hooks of the component ([useState], [useRef]) and around them the
    clock (milliseconds), the pending timeouts and the log of emitted
    events with the time of each. *)
Record State : Type := {
  rooms : list Room.t;
  selectedRoom : option Room.t;
  messages : list Message.t;
  newMessage : string;
  isSidebarOpen : bool;
  isTyping : bool;
  searchQuery : string;
  userProfile : option UserProfile.t;
  isProfileOpen : bool;
  socketRef : bool;
  typingTimeoutRef : option nat;
  now : Z;
  timers : list Timeout;
  nextHandle : nat;
  emitted : list (Z * Emit)
}.

Definition setRooms (v : list Room.t) (st : State) : State :=
  {| rooms := v; selectedRoom := selectedRoom st; messages := messages st;
     newMessage := newMessage st; isSidebarOpen := isSidebarOpen st;
     isTyping := isTyping st; searchQuery := searchQuery st;
     userProfile := userProfile st; isProfileOpen := isProfileOpen st;
     socketRef := socketRef st; typingTimeoutRef := typingTimeoutRef st;
     now := now st; timers := timers st; nextHandle := nextHandle st;
     emitted := emitted st |}.

Definition setSelectedRoom (v : option Room.t) (st : State) : State :=
  {| rooms := rooms st; selectedRoom := v; messages := messages st;
     newMessage := newMessage st; isSidebarOpen := isSidebarOpen st;
     isTyping := isTyping st; searchQuery := searchQuery st;
     userProfile := userProfile st; isProfileOpen := isProfileOpen st;
     socketRef := socketRef st; typingTimeoutRef := typingTimeoutRef st;
     now := now st; timers := timers st; nextHandle := nextHandle st;
     emitted := emitted st |}.

Definition setMessages (v : list Message.t) (st : State) : State :=
  {| rooms := rooms st; selectedRoom := selectedRoom st; messages := v;
     newMessage := newMessage st; isSidebarOpen := isSidebarOpen st;
     isTyping := isTyping st; searchQuery := searchQuery st;
     userProfile := userProfile st; isProfileOpen := isProfileOpen st;
     socketRef := socketRef st; typingTimeoutRef := typingTimeoutRef st;
     now := now st; timers := timers st; nextHandle := nextHandle st;
     emitted := emitted st |}.

Definition setNewMessage (v : string) (st : State) : State :=
  {| rooms := rooms st; selectedRoom := selectedRoom st;
     messages := messages st; newMessage := v;
     isSidebarOpen := isSidebarOpen st;
     isTyping := isTyping st; searchQuery := searchQuery st;
     userProfile := userProfile st; isProfileOpen := isProfileOpen st;
     socketRef := socketRef st; typingTimeoutRef := typingTimeoutRef st;
     now := now st; timers := timers st; nextHandle := nextHandle st;
     emitted := emitted st |}.

Definition setIsSidebarOpen (v : bool) (st : State) : State :=
  {| rooms := rooms st; selectedRoom := selectedRoom st;
     messages := messages st; newMessage := newMessage st;
     isSidebarOpen := v;
     isTyping := isTyping st; searchQuery := searchQuery st;
     userProfile := userProfile st; isProfileOpen := isProfileOpen st;
     socketRef := socketRef st; typingTimeoutRef := typingTimeoutRef st;
     now := now st; timers := timers st; nextHandle := nextHandle st;
     emitted := emitted st |}.

Definition setIsTyping (v : bool) (st : State) : State :=
  {| rooms := rooms st; selectedRoom := selectedRoom st;
     messages := messages st; newMessage := newMessage st;
     isSidebarOpen := isSidebarOpen st;
     isTyping := v; searchQuery := searchQuery st;
     userProfile := userProfile st; isProfileOpen := isProfileOpen st;
     socketRef := socketRef st; typingTimeoutRef := typingTimeoutRef st;
     now := now st; timers := timers st; nextHandle := nextHandle st;
     emitted := emitted st |}.

Definition setSearchQuery (v : string) (st : State) : State :=
  {| rooms := rooms st; selectedRoom := selectedRoom st;
     messages := messages st; newMessage := newMessage st;
     isSidebarOpen := isSidebarOpen st;
     isTyping := isTyping st; searchQuery := v;
     userProfile := userProfile st; isProfileOpen := isProfileOpen st;
     socketRef := socketRef st; typingTimeoutRef := typingTimeoutRef st;
     now := now st; timers := timers st; nextHandle := nextHandle st;
     emitted := emitted st |}.

Definition setUserProfile (v : option UserProfile.t) (st : State) : State :=
  {| rooms := rooms st; selectedRoom := selectedRoom st;
     messages := messages st; newMessage := newMessage st;
     isSidebarOpen := isSidebarOpen st;
     isTyping := isTyping st; searchQuery := searchQuery st;
     userProfile := v; isProfileOpen := isProfileOpen st;
     socketRef := socketRef st; typingTimeoutRef := typingTimeoutRef st;
     now := now st; timers := timers st; nextHandle := nextHandle st;
     emitted := emitted st |}.

(** The world around the hooks: clock, timeouts, emitted events. *)
Definition with_world (ref : option nat) (t : Z) (ts : list Timeout)
           (next : nat) (out : list (Z * Emit)) (st : State) : State :=
  {| rooms := rooms st; selectedRoom := selectedRoom st;
     messages := messages st; newMessage := newMessage st;
     isSidebarOpen := isSidebarOpen st;
     isTyping := isTyping st; searchQuery := searchQuery st;
     userProfile := userProfile st; isProfileOpen := isProfileOpen st;
     socketRef := socketRef st; typingTimeoutRef := ref;
     now := t; timers := ts; nextHandle := next; emitted := out |}.

(** [socketRef.current?.emit(...)] *)
Definition emit (e : Emit) (st : State) : State :=
  if socketRef st then
    with_world (typingTimeoutRef st) (now st) (timers st) (nextHandle st)
               (emitted st ++ [(now st, e)]) st
  else st.

Definition clearTimeout (h : nat) (st : State) : State :=
  with_world (typingTimeoutRef st) (now st)
             (filter (fun t => negb (Nat.eqb (handle t) h)) (timers st))
             (nextHandle st) (emitted st) st.

(** [typingTimeoutRef.current = setTimeout(callback, delay)], the callback
    having captured the room id [r]. *)
Definition setTimeout_typing (r : string) (delay : Z) (st : State) : State :=
  with_world (Some (nextHandle st)) (now st)
             (timers st ++ [{| handle := nextHandle st;
                               due := now st + delay; room := r |}])
             (S (nextHandle st)) (emitted st) st.

(** The state after the first effect has run with a session. *)
Definition initial : State :=
  {| rooms := []; selectedRoom := None; messages := []; newMessage := "";
     isSidebarOpen := false; isTyping := false; searchQuery := "";
     userProfile := None; isProfileOpen := false;
     socketRef := true; typingTimeoutRef := None;
     now := 0; timers := []; nextHandle := 1; emitted := [] |}.

(** *** Payload cipher *)

(** [process.env.NEXT_PUBLIC_ENCRYPTION_KEY || 'default-secret-key'] *)
Definition secretKey (ctx : Context) : string :=
  match NEXT_PUBLIC_ENCRYPTION_KEY ctx with
  | Some k => if String.eqb k "" then "default-secret-key" else k
  | None => "default-secret-key"
  end.

Definition encryptMessage (ctx : Context) (rnd : nat -> byte)
           (message : string) : completion string :=
  do cp <- CryptoJS.AES.encrypt rnd message (secretKey ctx);
  Normal (CryptoJS.OpenSSL.stringify cp).

Definition decryptMessage (ctx : Context) (rnd : nat -> byte)
           (ciphertext : string) : completion string :=
  do bytes <- CryptoJS.AES.decrypt rnd ciphertext (secretKey ctx);
  CryptoJS.Utf8.stringify bytes.

(** *** Socket handlers *)

(** [initialMessages.map(msg => ({ ...msg, content: decryptMessage(msg.content) }))],
    the [i]-th call drawing from the stream [rnd i]. *)
Fixpoint decrypt_all (ctx : Context) (rnd : nat -> nat -> byte) (i : nat)
         (msgs : list Message.t) : completion (list Message.t) :=
  match msgs with
  | [] => Normal []
  | msg :: r =>
      do c <- decryptMessage ctx (rnd i) (Message.content msg);
      do r' <- decrypt_all ctx rnd (S i) r;
      Normal (Message.with_content c msg :: r')
  end.

Definition on_initial_messages (ctx : Context) (rnd : nat -> nat -> byte)
           (roomId : option string) (initialMessages : list Message.t)
           (st : State) : completion State :=
  if opt_string_eqb (option_map Room.id (selectedRoom st)) roomId then
    do ms <- decrypt_all ctx rnd 0 initialMessages;
    Normal (setMessages ms st)
  else Normal st.

Definition on_chat_message (ctx : Context) (rnd : nat -> byte)
           (msg : Message.t) (st : State) : completion State :=
  if opt_string_eqb (option_map Room.id (selectedRoom st))
                    (Message.roomId msg) then
    do c <- decryptMessage ctx rnd (Message.content msg);
    Normal (setMessages (messages st ++ [Message.with_content c msg]) st)
  else Normal st.

Definition on_user_typing (ctx : Context) (userId : string)
           (typing : bool) (st : State) : State :=
  if negb (String.eqb userId (session_user_id ctx))
  then setIsTyping typing st
  else st.

Definition on_message_status_updated (messageId : string) (s : Status)
           (st : State) : State :=
  setMessages
    (map (fun msg =>
            if String.eqb (Message.id msg) messageId
            then Message.with_status s msg
            else msg)
         (messages st))
    st.

Definition on_room_created (room : Room.t) (st : State) : State :=
  setRooms (rooms st ++ [room]) st.

(** *** Callbacks of the user interface *)

Definition handleSendMessage (ctx : Context) (rnd : nat -> byte)
           (type : MessageType) (content : string) (st : State)
  : completion State :=
  match negb (String.eqb (trim content) ""), selectedRoom st with
  | true, Some r =>
      do encryptedContent <- encryptMessage ctx rnd content;
      Normal (setNewMessage ""
                (emit (emit_chat_message (Room.id r) encryptedContent type)
                      st))
  | _, _ => Normal st
  end.

Definition handleTyping (st : State) : State :=
  match selectedRoom st with
  | Some r =>
      let st1 := emit (emit_typing (Room.id r) true) st in
      let st2 :=
        match typingTimeoutRef st1 with
        | Some (S h) => clearTimeout (S h) st1
        | _ => st1
        end in
      setTimeout_typing (Room.id r) 2000 st2
  | None => st
  end.

(** Declared by the component, called from nowhere in its markup. *)
Definition createRoom (name : string) (userIds : list string) (st : State)
  : State :=
  emit (emit_create_room name userIds) st.

Definition joinRoom (roomId : string) (st : State) : State :=
  emit (emit_join_room roomId) st.

Definition leaveRoom (roomId : string) (st : State) : State :=
  emit (emit_leave_room roomId) st.

(** The callback of the timeout: [emit('typing', { roomId, isTyping: false })]. *)
Definition fire (t : Timeout) (st : State) : State :=
  emit (emit_typing (room t) false)
       (with_world (typingTimeoutRef st) (Z.max (now st) (due t))
                   (timers st) (nextHandle st) (emitted st) st).

Fixpoint insert_due (t : Timeout) (l : list Timeout) : list Timeout :=
  match l with
  | [] => [t]
  | u :: l' => if due t <? due u then t :: u :: l' else u :: insert_due t l'
  end.

Definition by_due (l : list Timeout) : list Timeout :=
  fold_right insert_due [] l.

(** [dt] milliseconds pass: the timeouts that fall due run, earliest
    first, each at its due time. *)
Definition elapse (dt : Z) (st : State) : State :=
  let t1 := now st + dt in
  let ready := filter (fun t => due t <=? t1) (timers st) in
  let waiting := filter (fun t => negb (due t <=? t1)) (timers st) in
  let st1 :=
    fold_left (fun s t => fire t s) (by_due ready)
              (with_world (typingTimeoutRef st) (now st) waiting
                          (nextHandle st) (emitted st) st) in
  with_world (typingTimeoutRef st1) t1 (timers st1) (nextHandle st1)
             (emitted st1) st1.

(** [onClick] of a room in the side bar. *)
Definition click_room (r : Room.t) (st : State) : State :=
  setIsSidebarOpen false (setSelectedRoom (Some r) st).

(** [onChange] of the message input. *)
Definition change_input (value : string) (st : State) : State :=
  handleTyping (setNewMessage value st).

(** [filteredMessages()], which the message list renders.  [toLowerCase]
    is [String.prototype.toLowerCase]. *)
Definition filteredMessages (toLowerCase : string -> string) (st : State)
  : list Message.t :=
  if String.eqb (searchQuery st) "" then messages st
  else
    filter (fun msg =>
              includes (toLowerCase (Message.content msg))
                       (toLowerCase (searchQuery st))
              || includes (toLowerCase (User.name (Message.user msg)))
                          (toLowerCase (searchQuery st)))
           (messages st).

(** *** Runs *)

Inductive Event : Type :=
| Elapse (dt : Z)
| ClickRoom (r : Room.t)
| ChangeInput (value : string)
| ChangeSearch (value : string)
| Submit (rnd : nat -> byte)
| Upload (rnd : nat -> byte) (type : MessageType) (content : string)
| InitialMessages (rnd : nat -> nat -> byte) (roomId : option string)
                  (initialMessages : list Message.t)
| ChatMessage (rnd : nat -> byte) (msg : Message.t)
| UserTyping (userId : string) (typing : bool)
| MessageStatusUpdated (messageId : string) (s : Status)
| RoomCreated (r : Room.t)
| UserJoined (userId roomId : string)
| UserLeft (userId roomId : string)
| RoomsFetched (rs : list Room.t)
| ProfileFetched (profile : UserProfile.t).

Definition step (ctx : Context) (st : State) (ev : Event)
  : completion State :=
  match ev with
  | Elapse dt => Normal (elapse dt st)
  | ClickRoom r => Normal (click_room r st)
  | ChangeInput v => Normal (change_input v st)
  | ChangeSearch v => Normal (setSearchQuery v st)
  | Submit rnd => handleSendMessage ctx rnd text (newMessage st) st
  | Upload rnd ty c => handleSendMessage ctx rnd ty c st
  | InitialMessages rnd roomId ms => on_initial_messages ctx rnd roomId ms st
  | ChatMessage rnd msg => on_chat_message ctx rnd msg st
  | UserTyping u b => Normal (on_user_typing ctx u b st)
  | MessageStatusUpdated m s => Normal (on_message_status_updated m s st)
  | RoomCreated r => Normal (on_room_created r st)
  | UserJoined _ _ => Normal st
  | UserLeft _ _ => Normal st
  | RoomsFetched rs => Normal (setRooms rs st)
  | ProfileFetched profile => Normal (setUserProfile (Some profile) st)
  end.

(** A run ends at the first event whose handler throws. *)
Fixpoint run (ctx : Context) (evs : list Event) (st : State)
  : completion State :=
  match evs with
  | [] => Normal st
  | ev :: evs' =>
      do st' <- step ctx st ev;
      run ctx evs' st'
  end.

(** An exception that leaves a socket listener is reported by the runtime
    and changes no hook. *)
Definition state_after (st : State) (c : completion State) : State :=
  match c with
  | Normal st' => st'
  | Throw _ => st
  end.

(** Views used in the statements. *)
Definition status_of (messageId : string) (st : State) : list Status :=
  map Message.status
      (filter (fun msg => String.eqb (Message.id msg) messageId)
              (messages st)).

Definition count_id (messageId : string) (st : State) : nat :=
  List.length (filter (fun msg => String.eqb (Message.id msg) messageId)
                      (messages st)).

Definition typing_events (b : bool) (st : State) : list (Z * Emit) :=
  filter (fun e =>
            match snd e with
            | emit_typing _ b' => Bool.eqb b b'
            | _ => false
            end)
         (emitted st).

(** Event sequences used in the statements. *)
Definition status_updates (messageId : string) (ss : list Status)
  : list Event :=
  map (MessageStatusUpdated messageId) ss.

(** *** Sample data for the closed statements *)

Module Sample.

Definition ctx : Context :=
  {| NEXT_PUBLIC_ENCRYPTION_KEY := None; session_user_id := "userA" |}.

(** A client configured with another key. *)
Definition ctx_other : Context :=
  {| NEXT_PUBLIC_ENCRYPTION_KEY := Some "other-key";
     session_user_id := "userB" |}.

(** A sender still configured with an older key. *)
Definition ctx_old : Context :=
  {| NEXT_PUBLIC_ENCRYPTION_KEY := Some "old-secret";
     session_user_id := "userC" |}.

Definition rnd (i : nat) : byte := ascii_of_nat (i + 1).

Definition roomA : Room.t :=
  {| Room.id := "A"; Room.name := "Room A"; Room.users := [] |}.

Definition roomB : Room.t :=
  {| Room.id := "B"; Room.name := "Room B"; Room.users := [] |}.

Definition userB : User.t := {| User.name := "Bea"; User.image := "" |}.

(** "hello" under the default key and the salt 01 02 .. 08. *)
Definition hello_cipher : string :=
  "U2FsdGVkX18BAgMEBQYHCHnrg3oKdLSZbI7zs9dekfI=".

(** "hello" under the key "old-secret" and the same salt. *)
Definition hello_cipher_old : string :=
  "U2FsdGVkX18BAgMEBQYHCLJeiSUryDxH94IXFGDQZ4Y=".

Definition msg (i c : string) (s : Status) (r : string) : Message.t :=
  {| Message.id := i; Message.content := c; Message.type := text;
     Message.createdAt := "2024-01-01T00:00:00.000Z";
     Message.status := s; Message.userId := "userB";
     Message.user := userB; Message.roomId := Some r |}.

Definition inA : State := setSelectedRoom (Some roomA) initial.

(** The unpaired surrogate U+D800 in generalised UTF-8. *)
Definition lone_surrogate : string :=
  string_of_bytes (map ascii_of_nat [237; 160; 128]%nat).

(** A client whose configured key is that string. *)
Definition ctx_surrogate : Context :=
  {| NEXT_PUBLIC_ENCRYPTION_KEY := Some lone_surrogate;
     session_user_id := "userD" |}.

End Sample.

(** Content made of white space only (the empty string included). *)
Definition whitespace_only (content : string) : Prop :=
  exists ws : list bytes,
    Forall (fun w => In w whitespace) ws
    /\ bytes_of_string content = List.concat ws.

(** Keystrokes in the message input, each after a pause: the events, and
    the times of the keystrokes when the first pause starts at time [t]. *)
Fixpoint typing_burst (l : list (Z * string)) : list Event :=
  match l with
  | [] => []
  | (d, v) :: l' => Elapse d :: ChangeInput v :: typing_burst l'
  end.

Fixpoint tick_times (t : Z) (l : list (Z * string)) : list Z :=
  match l with
  | [] => []
  | (d, _) :: l' => (t + d) :: tick_times (t + d) l'
  end.

(** The timeout of the last keystroke is the only one pending. *)
Definition armed (r : Room.t) (st : State) : Prop :=
  selectedRoom st = Some r
  /\ socketRef st = true
  /\ nextHandle st <> 0%nat
  /\ exists h,
      typingTimeoutRef st = Some (S h)
      /\ timers st = [{| handle := S h; due := now st + 2000;
                         room := Room.id r |}].

(** *** Further parts of the component *)

(** [String.prototype.startsWith] *)
Definition startsWith (s p : string) : bool :=
  match strip_prefix (bytes_of_string p) (bytes_of_string s) with
  | Some _ => true
  | None => false
  end.

(** The kind [handleFileUpload] passes to [handleSendMessage] for a file
    of MIME type [type]:
    [file.type.startsWith('image/') ? 'image' : file.type.startsWith('video/') ? 'video' : 'file']. *)
Definition upload_kind (type : string) : MessageType :=
  if startsWith type "image/" then image
  else if startsWith type "video/" then video
  else file.

(** What [renderMessage] returns: the element and the attribute or text it
    takes from the message. *)
Inductive Element : Type :=
| img (src : string)
| video_element (src : string)
| download_link (href : string)
| paragraph (text : string).

Definition renderMessage (message : Message.t) : Element :=
  match Message.type message with
  | image => img (Message.content message)
  | video => video_element (Message.content message)
  | file => download_link (Message.content message)
  | text => paragraph (Message.content message)
  end.

(** Predicates on events and states used in the statements. *)
Definition is_click_room (ev : Event) : bool :=
  match ev with
  | ClickRoom _ => true
  | _ => false
  end.

Definition is_initial_messages (ev : Event) : bool :=
  match ev with
  | InitialMessages _ _ _ => true
  | _ => false
  end.

(** An 'initial messages' payload whose messages carry the room id of the
    payload. *)
Definition payload_in_room (ev : Event) : Prop :=
  match ev with
  | InitialMessages _ roomId ms =>
      Forall (fun m => Message.roomId m = roomId) ms
  | _ => True
  end.

(** At most one timeout is pending, and it is the one the ref holds. *)
Definition timers_tracked (st : State) : Prop :=
  nextHandle st <> 0%nat
  /\ (timers st = []
      \/ exists h d r,
          timers st = [{| handle := S h; due := d; room := r |}]
          /\ typingTimeoutRef st = Some (S h)).

Definition n_typing (b : bool) (st : State) : nat :=
  List.length (typing_events b st).

(** The configurations under which [secretKey] is the fallback key. *)
Definition uses_default_key (ctx : Context) : Prop :=
  NEXT_PUBLIC_ENCRYPTION_KEY ctx = None
  \/ NEXT_PUBLIC_ENCRYPTION_KEY ctx = Some ""
  \/ NEXT_PUBLIC_ENCRYPTION_KEY ctx = Some "default-secret-key".

(** A file chosen in the file input, with what [readAsDataURL] gives for
    it. *)
Record File : Type := { File_type : string; File_result : string }.

(** [handleFileUpload], the read taken to complete before any other event:
    nothing without a file ([event.target.files?.[0]]), otherwise
    [handleSendMessage] with the kind of the file and the data URL. *)
Definition handleFileUpload (ctx : Context) (rnd : nat -> byte)
           (files : list File) (st : State) : completion State :=
  match files with
  | [] => Normal st
  | f :: _ =>
      handleSendMessage ctx rnd (upload_kind (File_type f)) (File_result f) st
  end.


(** * Properties *)

Import CryptoJS.

(** ** The library model on published test vectors *)

(** RFC 1321, appendix A.5. *)
Example md5_empty :
  map b2z (MD5.hash [])
  = [0xd4; 0x1d; 0x8c; 0xd9; 0x8f; 0x00; 0xb2; 0x04;
     0xe9; 0x80; 0x09; 0x98; 0xec; 0xf8; 0x42; 0x7e].
Proof. vm_compute. reflexivity. Qed.

Example md5_abc :
  map b2z (MD5.hash (bytes_of_string "abc"))
  = [0x90; 0x01; 0x50; 0x98; 0x3c; 0xd2; 0x4f; 0xb0;
     0xd6; 0x96; 0x3f; 0x7d; 0x28; 0xe1; 0x7f; 0x72].
Proof. vm_compute. reflexivity. Qed.

(** FIPS 197, appendix C.3 (AES-256) and C.1 (AES-128). *)
Example aes256_fips197 :
  map b2z
      (algo_AES.encryptBlock
         (algo_AES.keySchedule (map ascii_of_nat (seq 0 32)))
         (map z2b [0x00; 0x11; 0x22; 0x33; 0x44; 0x55; 0x66; 0x77;
                   0x88; 0x99; 0xaa; 0xbb; 0xcc; 0xdd; 0xee; 0xff]))
  = [0x8e; 0xa2; 0xb7; 0xca; 0x51; 0x67; 0x45; 0xbf;
     0xea; 0xfc; 0x49; 0x90; 0x4b; 0x49; 0x60; 0x89].
Proof. vm_compute. reflexivity. Qed.

Example aes128_fips197 :
  map b2z
      (algo_AES.encryptBlock
         (algo_AES.keySchedule (map ascii_of_nat (seq 0 16)))
         (map z2b [0x00; 0x11; 0x22; 0x33; 0x44; 0x55; 0x66; 0x77;
                   0x88; 0x99; 0xaa; 0xbb; 0xcc; 0xdd; 0xee; 0xff]))
  = [0x69; 0xc4; 0xe0; 0xd8; 0x6a; 0x7b; 0x04; 0x30;
     0xd8; 0xcd; 0xb7; 0x80; 0x70; 0xb4; 0xc5; 0x5a].
Proof. vm_compute. reflexivity. Qed.

(** RFC 4648, section 10. *)
Example base64_foobar :
  Base64.stringify (bytes_of_string "foobar") = "Zm9vYmFy"
  /\ Base64.stringify (bytes_of_string "fooba") = "Zm9vYmE="
  /\ Base64.stringify (bytes_of_string "foob") = "Zm9vYg=="
  /\ Base64.parse "Zm9vYg==" = bytes_of_string "foob".
Proof. vm_compute. repeat split. Qed.

(** The bytes [openssl enc -aes-256-cbc -md md5 -S 0102030405060708] gives
    for "hello" under the passphrase "default-secret-key", behind the
    salt header. *)
Example openssl_hello :
  encryptMessage Sample.ctx Sample.rnd "hello" = Normal Sample.hello_cipher
  /\ map b2z (skipn 16 (Base64.parse Sample.hello_cipher))
     = [0x79; 0xeb; 0x83; 0x7a; 0x0a; 0x74; 0xb4; 0x99;
        0x6c; 0x8e; 0xf3; 0xb3; 0xd7; 0x5e; 0x91; 0xf2].
Proof. vm_compute. split; reflexivity. Qed.

(** ** Helpers *)

Lemma run_app (ctx : Context) (evs1 evs2 : list Event) (st st1 : State) :
  run ctx evs1 st = Normal st1 ->
  run ctx (evs1 ++ evs2) st = run ctx evs2 st1.
Proof.
  revert st. induction evs1 as [|ev evs1 IH]; intros st H; simpl in *.
  - now inversion H.
  - destruct (step ctx st ev) as [st'|e]; simpl in *; [auto | discriminate].
Qed.

(** ** Message status updates *)

Lemma status_update_ids (messageId : string) (s : Status) (st : State) :
  map Message.id (messages (on_message_status_updated messageId s st))
  = map Message.id (messages st).
Proof.
  unfold on_message_status_updated; simpl.
  induction (messages st) as [|m l IH]; simpl; [reflexivity|].
  rewrite IH. now destruct (String.eqb (Message.id m) messageId).
Qed.

Lemma status_update_sets (messageId : string) (s : Status) (st : State) :
  Forall (fun x => x = s)
         (status_of messageId (on_message_status_updated messageId s st)).
Proof.
  unfold status_of, on_message_status_updated; simpl.
  induction (messages st) as [|m l IH]; simpl; [constructor|].
  destruct (String.eqb (Message.id m) messageId) eqn:E; simpl.
  - rewrite E. simpl. now constructor.
  - now rewrite E.
Qed.

Lemma status_update_others (messageId : string) (s : Status) (st : State)
      (m : Message.t) :
  Message.id m <> messageId ->
  In m (messages st) ->
  In m (messages (on_message_status_updated messageId s st)).
Proof.
  intros Hne Hin. unfold on_message_status_updated; simpl.
  apply in_map_iff. exists m. split; [|assumption].
  destruct (String.eqb_spec (Message.id m) messageId); congruence.
Qed.

Lemma status_update_others_back (messageId : string) (s : Status)
      (st : State) (m : Message.t) :
  Message.id m <> messageId ->
  In m (messages (on_message_status_updated messageId s st)) ->
  In m (messages st).
Proof.
  intros Hne Hin. unfold on_message_status_updated in Hin; simpl in Hin.
  apply in_map_iff in Hin. destruct Hin as [m0 [Heq Hin0]].
  destruct (String.eqb_spec (Message.id m0) messageId) as [E|E].
  - subst m. simpl in Hne. congruence.
  - now subst m0.
Qed.

Lemma run_status_updates (ctx : Context) (messageId : string)
      (ss : list Status) (st : State) :
  exists st',
    run ctx (status_updates messageId ss) st = Normal st'
    /\ map Message.id (messages st') = map Message.id (messages st)
    /\ (forall m, Message.id m <> messageId ->
                  (In m (messages st') <-> In m (messages st))).
Proof.
  revert st. induction ss as [|s ss IH]; intros st; simpl.
  - exists st. repeat split; auto.
  - destruct (IH (on_message_status_updated messageId s st))
      as [st' [Hrun [Hids Hoth]]].
    exists st'. split; [exact Hrun|]. split.
    + rewrite Hids. apply status_update_ids.
    + intros m Hne. rewrite (Hoth m Hne). split.
      * now apply status_update_others_back.
      * now apply status_update_others.
Qed.

(** C1 (as written, refuted): the updates [delivered] then [sent] on a
    message whose status is [sent] leave it at [sent], not at [delivered]:
    the status has regressed. *)
Lemma status_regresses_on_late_sent :
  exists st',
    run Sample.ctx
        (status_updates "m1" [delivered; sent])
        (setMessages [Sample.msg "m1" "hi" sent "A"] Sample.inA)
    = Normal st'
    /\ status_of "m1" st' = [sent]
    /\ status_of "m1" st' <> [delivered].
Proof.
  eexists. split; [reflexivity|]. split; [reflexivity|discriminate].
Qed.

(** C1 (amended): a 'message status updated' event overwrites the status of
    every message with the referenced id, whatever the current status:
    after any sequence of such events for one id, every message with that
    id carries the status of the last event, the ids of the sequence are
    the same in the same order, and a message with another id is in the
    sequence after the events exactly when it was before. *)
Theorem status_update_last_wins (ctx : Context) (messageId : string)
        (ss : list Status) (s : Status) (st : State) :
  exists st',
    run ctx (status_updates messageId (ss ++ [s])) st = Normal st'
    /\ Forall (fun x => x = s) (status_of messageId st')
    /\ map Message.id (messages st') = map Message.id (messages st)
    /\ (forall m, Message.id m <> messageId ->
                  (In m (messages st') <-> In m (messages st))).
Proof.
  destruct (run_status_updates ctx messageId ss st) as [st1 [H1 [Hids Hoth]]].
  exists (on_message_status_updated messageId s st1).
  unfold status_updates. rewrite map_app. split.
  - rewrite (run_app _ _ _ _ _ H1). reflexivity.
  - split; [apply status_update_sets|]. split.
    + rewrite status_update_ids. exact Hids.
    + intros m Hne. rewrite <- (Hoth m Hne). split.
      * now apply status_update_others_back.
      * now apply status_update_others.
Qed.

(** ** Typing presence of remote users *)

(** C9: a 'user typing' event carrying the local identity id leaves the
    state as it is; an event carrying any other id sets the typing flag to
    the event's boolean and changes nothing else. *)
Theorem user_typing_ignores_local_identity (ctx : Context)
        (userId : string) (typing : bool) (st : State) :
  (userId = session_user_id ctx ->
   step ctx st (UserTyping userId typing) = Normal st)
  /\ (userId <> session_user_id ctx ->
      step ctx st (UserTyping userId typing)
      = Normal (setIsTyping typing st)).
Proof.
  simpl. unfold on_user_typing.
  destruct (String.eqb_spec userId (session_user_id ctx)); simpl;
    split; intros; congruence.
Qed.

Lemma user_typing_ignores_local_identity_witness :
  step Sample.ctx Sample.inA (UserTyping "userA" true) = Normal Sample.inA
  /\ isTyping Sample.inA = false
  /\ step Sample.ctx Sample.inA (UserTyping "userB" true)
     = Normal (setIsTyping true Sample.inA).
Proof.
  split.
  - apply (user_typing_ignores_local_identity Sample.ctx "userA" true).
    reflexivity.
  - split; [reflexivity|].
    apply (user_typing_ignores_local_identity Sample.ctx "userB" true).
    discriminate.
Defined.

(** ** Switching rooms *)

(** C5 (as written, refuted): with room A active a message of room A
    arrives; after the switch to room B the rendered view still contains
    that message, whose room id is not B's. *)
Lemma room_switch_leaks_previous_room :
  exists stA stB m,
    run Sample.ctx
        [ClickRoom Sample.roomA;
         ChatMessage Sample.rnd
                     (Sample.msg "m1" Sample.hello_cipher sent "A")]
        initial = Normal stA
    /\ run Sample.ctx [ClickRoom Sample.roomB] stA = Normal stB
    /\ option_map Room.id (selectedRoom stB) = Some "B"
    /\ In m (filteredMessages (fun s => s) stB)
    /\ Message.roomId m = Some "A"
    /\ Message.roomId m <> Some "B".
Proof.
  eexists. eexists. eexists.
  split; [vm_compute; reflexivity|].
  split; [vm_compute; reflexivity|].
  split; [reflexivity|].
  split; [left; reflexivity|].
  split; [reflexivity|discriminate].
Qed.

(** C5 (amended): a click on a room changes the selection (and closes the
    side bar) and nothing else: there is one message sequence, which the
    switch leaves as it is.  So with no inbound event in between, while B
    is active the sequence and the rendered view are what they were
    before the switch, and after the switch back to A the sequence is
    again the one from before. *)
Theorem room_switch_leaves_messages (ctx : Context)
        (toLowerCase : string -> string) (a b : Room.t) (st : State) :
  exists stB stA,
    run ctx [ClickRoom b] st = Normal stB
    /\ run ctx [ClickRoom a] stB = Normal stA
    /\ selectedRoom stB = Some b
    /\ messages stB = messages st
    /\ filteredMessages toLowerCase stB = filteredMessages toLowerCase st
    /\ selectedRoom stA = Some a
    /\ messages stA = messages st.
Proof.
  exists (click_room b st), (click_room a (click_room b st)).
  repeat split; reflexivity.
Qed.

(** ** Sending *)

Lemma strip_any_whitespace (w r : bytes) :
  In w whitespace -> strip_any whitespace (w ++ r) = Some r.
Proof.
  unfold whitespace. simpl.
  intros H.
  repeat (destruct H as [<-|H]; [reflexivity|]).
  contradiction.
Qed.

Lemma strip_any_nil (ps : list bytes) :
  Forall (fun p => p <> []) ps -> strip_any ps [] = None.
Proof.
  induction 1 as [|p ps Hp _ IH]; simpl; [reflexivity|].
  destruct p; [congruence|exact IH].
Qed.

Lemma whitespace_nonempty : Forall (fun p : bytes => p <> []) whitespace.
Proof. unfold whitespace; simpl. repeat constructor; discriminate. Qed.

Lemma strip_all_nil (fuel : nat) (ps : list bytes) :
  Forall (fun p => p <> []) ps -> strip_all fuel ps [] = [].
Proof.
  intros H. destruct fuel; simpl; [reflexivity|].
  now rewrite strip_any_nil.
Qed.

Lemma strip_all_whitespace (ws : list bytes) :
  Forall (fun w => In w whitespace) ws ->
  forall fuel, (List.length ws <= fuel)%nat ->
  strip_all fuel whitespace (List.concat ws) = [].
Proof.
  induction 1 as [|w ws Hw _ IH]; intros fuel Hfuel.
  - apply strip_all_nil, whitespace_nonempty.
  - destruct fuel as [|fuel]; simpl in Hfuel; [lia|].
    cbn [strip_all List.concat].
    rewrite strip_any_whitespace by assumption.
    apply IH. lia.
Qed.

Lemma concat_length_ge (ws : list bytes) :
  Forall (fun w => In w whitespace) ws ->
  (List.length ws <= List.length (List.concat ws))%nat.
Proof.
  induction 1 as [|w ws Hw _ IH]; simpl; [lia|].
  rewrite length_app.
  assert (w <> []) as Hne.
  { pose proof whitespace_nonempty as Hall.
    rewrite Forall_forall in Hall. now apply Hall. }
  destruct w; [congruence|simpl; lia].
Qed.

Lemma trim_whitespace_only (content : string) :
  whitespace_only content -> trim content = "".
Proof.
  intros [ws [Hws Heq]]. unfold trim, trimStart. rewrite Heq.
  rewrite strip_all_whitespace; [reflexivity|assumption|].
  now apply concat_length_ge.
Qed.

(** C10: the send operation called with content that is empty or made of
    white space only, or while no room is selected, returns with the state
    as it was: nothing is emitted, the message sequence and the draft are
    unchanged. *)
Theorem send_blank_or_no_room_is_noop (ctx : Context) (rnd : nat -> byte)
        (type : MessageType) (content : string) (st : State) :
  whitespace_only content \/ selectedRoom st = None ->
  handleSendMessage ctx rnd type content st = Normal st.
Proof.
  intros [H|H]; unfold handleSendMessage.
  - rewrite (trim_whitespace_only _ H). reflexivity.
  - rewrite H. now destruct (negb (String.eqb (trim content) "")).
Qed.

Lemma send_blank_or_no_room_is_noop_witness :
  (whitespace_only "  " \/ selectedRoom Sample.inA = None)
  /\ handleSendMessage Sample.ctx Sample.rnd text "  " Sample.inA
     = Normal Sample.inA.
Proof.
  assert (whitespace_only "  ") as H.
  { exists [[" "%char]; [" "%char]].
    split; [|reflexivity].
    repeat constructor; unfold whitespace; simpl; tauto. }
  split; [left; exact H|].
  exact (send_blank_or_no_room_is_noop
           Sample.ctx Sample.rnd text "  " Sample.inA (or_introl H)).
Defined.

(** ** Typing presence of the local user *)

Lemma tick_from_idle (r : Room.t) (v : string) (st : State) :
  selectedRoom st = Some r -> socketRef st = true -> timers st = [] ->
  nextHandle st <> 0%nat ->
  armed r (change_input v st)
  /\ emitted (change_input v st)
     = emitted st ++ [(now st, emit_typing (Room.id r) true)]
  /\ now (change_input v st) = now st.
Proof.
  destruct st as [rs sel ms nm sb ty sq up po so ref t ts nh out].
  simpl. intros -> -> -> Hnh.
  destruct nh as [|nh]; [congruence|].
  unfold change_input, handleTyping, emit, armed; simpl.
  destruct ref as [[|h]|]; simpl; repeat split; eauto.
Qed.

Lemma tick_from_armed (r : Room.t) (d : Z) (v : string) (st : State) :
  armed r st -> 0 <= d < 2000 ->
  armed r (change_input v (elapse d st))
  /\ emitted (change_input v (elapse d st))
     = emitted st ++ [(now st + d, emit_typing (Room.id r) true)]
  /\ now (change_input v (elapse d st)) = now st + d.
Proof.
  destruct st as [rs sel ms nm sb ty sq up po so ref t ts nh out].
  unfold armed; simpl. intros [-> [-> [Hnh [h [-> ->]]]]] Hd.
  destruct nh as [|nh]; [congruence|].
  unfold change_input, handleTyping, elapse, emit; simpl.
  assert ((t + 2000 <=? t + d) = false) as E by (apply Z.leb_gt; lia).
  rewrite E. simpl. rewrite Nat.eqb_refl. simpl.
  repeat split; eauto.
Qed.

Lemma silence_from_armed (r : Room.t) (final : Z) (st : State) :
  armed r st -> 2000 <= final ->
  timers (elapse final st) = []
  /\ emitted (elapse final st)
     = emitted st ++ [(now st + 2000, emit_typing (Room.id r) false)].
Proof.
  destruct st as [rs sel ms nm sb ty sq up po so ref t ts nh out].
  unfold armed; simpl. intros [-> [-> [_ [h [-> ->]]]]] Hd.
  unfold elapse, fire, emit; simpl.
  assert ((t + 2000 <=? t + final) = true) as E by (apply Z.leb_le; lia).
  rewrite E. simpl.
  replace (Z.max t (t + 2000)) with (t + 2000) by lia.
  split; reflexivity.
Qed.

Lemma last_default {A : Type} (a : A) (l : list A) (d1 d2 : A) :
  last (a :: l) d1 = last (a :: l) d2.
Proof.
  revert a. induction l as [|b l IH]; intros a; [reflexivity|].
  change (last (b :: l) d1 = last (b :: l) d2). apply IH.
Qed.

Lemma last_tick_times (l : list (Z * string)) (t d0 : Z) :
  last (t :: tick_times t l) d0 = last (tick_times t l) t.
Proof.
  destruct l as [|[d v] l]; [reflexivity|].
  cbn [tick_times].
  change (last (t + d :: tick_times (t + d) l) d0
          = last (t + d :: tick_times (t + d) l) t).
  apply last_default.
Qed.

Lemma burst_from_armed (ctx : Context) (r : Room.t)
      (l : list (Z * string)) (final : Z) :
  Forall (fun dv => 0 <= fst dv < 2000) l -> 2000 <= final ->
  forall st, armed r st ->
  exists st',
    run ctx (typing_burst l ++ [Elapse final]) st = Normal st'
    /\ timers st' = []
    /\ emitted st'
       = emitted st
         ++ map (fun t => (t, emit_typing (Room.id r) true))
                (tick_times (now st) l)
         ++ [(last (tick_times (now st) l) (now st) + 2000,
              emit_typing (Room.id r) false)].
Proof.
  intros Hl Hfinal. induction Hl as [|[d v] l Hd _ IH]; intros st Harmed.
  - exists (elapse final st).
    destruct (silence_from_armed r final st Harmed Hfinal) as [Ht He].
    simpl. repeat split; assumption.
  - simpl in Hd.
    destruct (tick_from_armed r d v st Harmed Hd) as [Ha [He Hn]].
    destruct (IH _ Ha) as [st' [Hrun [Ht Hem]]].
    exists st'. split; [exact Hrun|]. split; [exact Ht|].
    rewrite Hem, He, Hn. cbn [tick_times map].
    rewrite <- app_assoc. cbn ["++"].
    now rewrite last_tick_times.
Qed.

(** C2 (as written, refuted): keystrokes at 0 ms, 1000 ms and 2000 ms (0,
    0.5 and 1.0 times the 2000 ms of the timer) and silence afterwards: three
    typing=true events are emitted, not one; the single typing=false comes
    at 4000 ms. *)
Lemma typing_true_emitted_three_times :
  exists st',
    run Sample.ctx
        [ChangeInput "h"; Elapse 1000; ChangeInput "he"; Elapse 1000;
         ChangeInput "hel"; Elapse 2000]
        Sample.inA = Normal st'
    /\ typing_events true st'
       = [(0, emit_typing "A" true); (1000, emit_typing "A" true);
          (2000, emit_typing "A" true)]
    /\ List.length (typing_events true st') <> 1%nat
    /\ typing_events false st' = [(4000, emit_typing "A" false)].
Proof.
  eexists. split; [reflexivity|].
  split; [reflexivity|]. split; [discriminate|reflexivity].
Qed.

(** C2 (amended): with a room selected, the socket there, no timeout
    pending and timer handles that are positive numbers as in a browser, a
    first keystroke and then keystrokes each less than 2000 ms
    after the one before, followed by at least 2000 ms of silence, emit
    typing=true at every keystroke (the timer is restarted each time) and
    typing=false exactly once, 2000 ms after the last keystroke; nothing
    else is emitted and no timeout is left pending. *)
Theorem typing_true_on_every_tick_false_once (ctx : Context) (r : Room.t)
        (v0 : string) (l : list (Z * string)) (final : Z) (st : State) :
  selectedRoom st = Some r -> socketRef st = true -> timers st = [] ->
  nextHandle st <> 0%nat ->
  Forall (fun dv => 0 <= fst dv < 2000) l -> 2000 <= final ->
  exists st',
    run ctx (ChangeInput v0 :: typing_burst l ++ [Elapse final]) st
    = Normal st'
    /\ timers st' = []
    /\ emitted st'
       = emitted st
         ++ map (fun t => (t, emit_typing (Room.id r) true))
                (now st :: tick_times (now st) l)
         ++ [(last (tick_times (now st) l) (now st) + 2000,
              emit_typing (Room.id r) false)].
Proof.
  intros Hsel Hsock Htim Hnh Hl Hfinal.
  destruct (tick_from_idle r v0 st Hsel Hsock Htim Hnh) as [Ha [He Hn]].
  destruct (burst_from_armed ctx r l final Hl Hfinal _ Ha)
    as [st' [Hrun [Ht Hem]]].
  exists st'. split; [exact Hrun|]. split; [exact Ht|].
  rewrite Hem, He, Hn. rewrite <- app_assoc. reflexivity.
Qed.

Lemma typing_true_on_every_tick_false_once_witness :
  selectedRoom Sample.inA = Some Sample.roomA
  /\ socketRef Sample.inA = true
  /\ timers Sample.inA = []
  /\ nextHandle Sample.inA <> 0%nat
  /\ Forall (fun dv => 0 <= fst dv < 2000) [(1000, "he"); (1000, "hel")]
  /\ 2000 <= 2000
  /\ exists st',
      run Sample.ctx
          (ChangeInput "h"
             :: typing_burst [(1000, "he"); (1000, "hel")] ++ [Elapse 2000])
          Sample.inA = Normal st'
      /\ timers st' = []
      /\ emitted st'
         = [(0, emit_typing "A" true); (1000, emit_typing "A" true);
            (2000, emit_typing "A" true); (4000, emit_typing "A" false)].
Proof.
  assert (Forall (fun dv : Z * string => 0 <= fst dv < 2000)
                 [(1000, "he"); (1000, "hel")]) as Hl
      by (repeat constructor; simpl; lia).
  assert (nextHandle Sample.inA <> 0%nat) as Hnh by discriminate.
  assert (2000 <= 2000) as Hf by lia.
  repeat (split; [first [reflexivity | assumption]|]).
  exact (typing_true_on_every_tick_false_once
           Sample.ctx Sample.roomA "h" [(1000, "he"); (1000, "hel")] 2000
           Sample.inA eq_refl eq_refl eq_refl Hnh Hl Hf).
Defined.

(** ** The payload cipher: AES blocks *)

Lemma list_ind4 {A : Type} (P : list A -> Prop) :
  (forall l, (List.length l < 4)%nat -> P l) ->
  (forall a b c d r, P r -> P (a :: b :: c :: d :: r)) ->
  forall l, P l.
Proof.
  intros Hshort Hstep l.
  assert (forall n l, (List.length l <= n)%nat -> P l) as H.
  { induction n as [|n IH]; intros l0 Hl.
    - apply Hshort. lia.
    - destruct l0 as [|a [|b [|c [|d r]]]];
        try (apply Hshort; simpl; lia).
      apply Hstep, IH. simpl in Hl. lia. }
  apply (H (List.length l)). lia.
Qed.

Lemma bxor_involutive (a b : byte) : bxor (bxor a b) b = a.
Proof.
  destruct a, b; simpl.
  f_equal; btauto.
Qed.

Lemma xor_bytes_involutive (x y : bytes) : xor_bytes (xor_bytes x y) y = x.
Proof.
  revert y. induction x as [|a x IH]; intros [|b y]; simpl; try reflexivity.
  now rewrite bxor_involutive, IH.
Qed.

Lemma xor_bytes_length (x y : bytes) :
  List.length (xor_bytes x y) = List.length x.
Proof.
  revert y. induction x as [|a x IH]; intros [|b y]; simpl; auto.
Qed.

Lemma InvSub_Sub (a : byte) : algo_AES.InvSub (algo_AES.Sub a) = a.
Proof.
  destruct a as [[] [] [] [] [] [] [] []]; vm_compute; reflexivity.
Qed.

Lemma InvSubBytes_SubBytes (st : bytes) :
  algo_AES.InvSubBytes (algo_AES.SubBytes st) = st.
Proof.
  unfold algo_AES.InvSubBytes, algo_AES.SubBytes.
  induction st as [|a st IH]; simpl; [reflexivity|].
  now rewrite InvSub_Sub, IH.
Qed.

Lemma InvShiftRows_ShiftRows (st : bytes) :
  algo_AES.InvShiftRows (algo_AES.ShiftRows st) = st.
Proof.
  do 16 (destruct st as [|? st]; [reflexivity|]).
  destruct st; reflexivity.
Qed.

Lemma ShiftRows_length (st : bytes) :
  List.length (algo_AES.ShiftRows st) = List.length st.
Proof.
  do 16 (destruct st as [|? st]; [reflexivity|]).
  destruct st; reflexivity.
Qed.

Lemma InvMix_Mix_column (a0 a1 a2 a3 : byte) (r : bytes) :
  algo_AES.InvMixColumns (algo_AES.MixColumns (a0 :: a1 :: a2 :: a3 :: r))
  = a0 :: a1 :: a2 :: a3
       :: algo_AES.InvMixColumns (algo_AES.MixColumns r).
Proof.
  cbn [algo_AES.MixColumns algo_AES.InvMixColumns].
  destruct a0, a1, a2, a3.
  unfold algo_AES.bxor4, algo_AES.mul2, algo_AES.mul3, algo_AES.mul9,
    algo_AES.mul11, algo_AES.mul13, algo_AES.mul14, algo_AES.xtime, bxor.
  f_equal; [f_equal; btauto|].
  f_equal; [f_equal; btauto|].
  f_equal; [f_equal; btauto|].
  f_equal; f_equal; btauto.
Qed.

Lemma InvMixColumns_MixColumns (st : bytes) :
  algo_AES.InvMixColumns (algo_AES.MixColumns st) = st.
Proof.
  induction st as [l Hl|a b c d r IH] using list_ind4.
  - destruct l as [|a [|b [|c [|d r]]]]; try reflexivity.
    simpl in Hl. lia.
  - rewrite InvMix_Mix_column. now rewrite IH.
Qed.

Lemma MixColumns_length (st : bytes) :
  List.length (algo_AES.MixColumns st) = List.length st.
Proof.
  induction st as [l Hl|a b c d r IH] using list_ind4.
  - destruct l as [|a [|b [|c [|d r]]]]; try reflexivity.
    simpl in Hl. lia.
  - cbn [algo_AES.MixColumns List.length]. now rewrite IH.
Qed.

Lemma dec_round_enc_round (st rk : bytes) :
  algo_AES.dec_round
    (algo_AES.ShiftRows (algo_AES.SubBytes (algo_AES.enc_round st rk))) rk
  = algo_AES.ShiftRows (algo_AES.SubBytes st).
Proof.
  unfold algo_AES.dec_round, algo_AES.enc_round, algo_AES.AddRoundKey.
  rewrite InvShiftRows_ShiftRows, InvSubBytes_SubBytes.
  rewrite xor_bytes_involutive. apply InvMixColumns_MixColumns.
Qed.

Lemma dec_rounds_enc_rounds (mid : list bytes) (st : bytes) :
  fold_left algo_AES.dec_round (rev mid)
    (algo_AES.ShiftRows
       (algo_AES.SubBytes (fold_left algo_AES.enc_round mid st)))
  = algo_AES.ShiftRows (algo_AES.SubBytes st).
Proof.
  revert st. induction mid as [|rk mid IH]; intros st; simpl.
  - reflexivity.
  - rewrite fold_left_app. simpl. rewrite IH.
    apply dec_round_enc_round.
Qed.

(** [decryptBlock] inverts [encryptBlock], whatever the round keys. *)
Lemma decryptBlock_encryptBlock (rks : list bytes) (block : bytes) :
  algo_AES.decryptBlock rks (algo_AES.encryptBlock rks block) = block.
Proof.
  destruct rks as [|rk0 rest]; [reflexivity|].
  unfold algo_AES.decryptBlock, algo_AES.encryptBlock, algo_AES.AddRoundKey.
  rewrite xor_bytes_involutive, dec_rounds_enc_rounds.
  rewrite InvShiftRows_ShiftRows, InvSubBytes_SubBytes.
  apply xor_bytes_involutive.
Qed.

Lemma enc_rounds_length (mid : list bytes) (st : bytes) :
  List.length (fold_left algo_AES.enc_round mid st) = List.length st.
Proof.
  revert st. induction mid as [|rk mid IH]; intros st; simpl; [reflexivity|].
  rewrite IH. unfold algo_AES.enc_round, algo_AES.AddRoundKey.
  rewrite xor_bytes_length, MixColumns_length, ShiftRows_length.
  apply length_map.
Qed.

Lemma encryptBlock_length (rks : list bytes) (block : bytes) :
  List.length (algo_AES.encryptBlock rks block) = List.length block.
Proof.
  destruct rks as [|rk0 rest]; [reflexivity|].
  unfold algo_AES.encryptBlock, algo_AES.AddRoundKey.
  rewrite xor_bytes_length, ShiftRows_length.
  unfold algo_AES.SubBytes. rewrite length_map, enc_rounds_length.
  apply xor_bytes_length.
Qed.

(** ** The payload cipher: mode, padding *)

Lemma CBC_decrypt_encrypt (rks : list bytes) (bl : list bytes)
      (prevBlock : bytes) :
  CBC.decrypt rks prevBlock (CBC.encrypt rks prevBlock bl) = bl.
Proof.
  revert prevBlock. induction bl as [|b bl IH]; intros prevBlock; simpl.
  - reflexivity.
  - rewrite decryptBlock_encryptBlock, xor_bytes_involutive. now rewrite IH.
Qed.

Lemma CBC_encrypt_lengths (rks : list bytes) (bl : list bytes)
      (prevBlock : bytes) :
  Forall (fun b => List.length b = 16%nat) bl ->
  Forall (fun b => List.length b = 16%nat) (CBC.encrypt rks prevBlock bl).
Proof.
  intros H. revert prevBlock.
  induction H as [|b bl Hb _ IH]; intros prevBlock; simpl; constructor.
  - now rewrite encryptBlock_length, xor_bytes_length.
  - apply IH.
Qed.

Lemma CBC_encrypt_count (rks : list bytes) (bl : list bytes)
      (prevBlock : bytes) :
  List.length (CBC.encrypt rks prevBlock bl) = List.length bl.
Proof.
  revert prevBlock. induction bl as [|b bl IH]; intros; simpl; auto.
Qed.

Lemma concat_blocks_length (bl : list bytes) :
  Forall (fun b => List.length b = 16%nat) bl ->
  List.length (List.concat bl) = (16 * List.length bl)%nat.
Proof.
  induction 1 as [|b bl Hb _ IH]; simpl; [reflexivity|].
  rewrite length_app, Hb, IH. lia.
Qed.

Lemma firstn_app_exact {A : Type} (n : nat) (b r : list A) :
  List.length b = n -> firstn n (b ++ r) = b.
Proof.
  intros <-. rewrite firstn_app, Nat.sub_diag, firstn_O, app_nil_r.
  apply firstn_all.
Qed.

Lemma skipn_app_exact {A : Type} (n : nat) (b r : list A) :
  List.length b = n -> skipn n (b ++ r) = r.
Proof.
  intros <-. rewrite skipn_app, Nat.sub_diag, skipn_all. reflexivity.
Qed.

(** Cutting the concatenation of whole blocks gives the blocks back. *)
Lemma blocks_concat (bl : list bytes) :
  Forall (fun b => List.length b = 16%nat) bl ->
  forall n, (List.length bl <= n)%nat -> blocks n (List.concat bl) = bl.
Proof.
  induction 1 as [|b bl Hb _ IH]; intros n Hn.
  - destruct n; reflexivity.
  - destruct n as [|n]; simpl in Hn; [lia|].
    cbn [blocks List.concat].
    rewrite (firstn_app_exact 16 b _ Hb), (skipn_app_exact 16 b _ Hb).
    rewrite Hb, IH by lia.
    destruct b as [|a b']; [discriminate Hb|].
    simpl. now rewrite app_nil_r.
Qed.

(** Data whose length is a multiple of 16 is a concatenation of whole
    blocks. *)
Lemma whole_blocks (k : nat) (data : bytes) :
  List.length data = (16 * k)%nat ->
  exists bl : list bytes,
    Forall (fun b : bytes => List.length b = 16%nat) bl
    /\ List.length bl = k /\ List.concat bl = data.
Proof.
  revert data. induction k as [|k IH]; intros data Hlen.
  - exists ([] : list bytes).
    destruct data; [repeat split; constructor|simpl in Hlen; lia].
  - destruct (IH (skipn 16 data)) as [bl [Hall [Hk Hcat]]].
    { rewrite length_skipn. lia. }
    exists ((firstn 16 data : bytes) :: bl). split; [|split].
    + constructor; [|assumption]. rewrite length_firstn. lia.
    + cbn [List.length]. now rewrite Hk.
    + cbn [List.concat]. rewrite Hcat. apply firstn_skipn.
Qed.

Lemma pad_length (data : bytes) :
  exists k, List.length (Pkcs7.pad data) = (16 * k)%nat /\ (1 <= k)%nat.
Proof.
  unfold Pkcs7.pad, Pkcs7.blockSizeBytes.
  rewrite length_app, repeat_length.
  exists (List.length data / 16 + 1)%nat.
  pose proof (Nat.div_mod_eq (List.length data) 16).
  pose proof (Nat.mod_upper_bound (List.length data) 16).
  lia.
Qed.

Lemma unpad_pad (data : bytes) :
  Pkcs7.unpad (Pkcs7.pad data) (List.length (Pkcs7.pad data)) = data.
Proof.
  destruct (pad_length data) as [k [Hk Hk1]].
  unfold Pkcs7.unpad. rewrite Hk.
  destruct (16 * k)%nat as [|m] eqn:Em; [lia|].
  assert ((m / 4 * 4 + 3)%nat = m) as Hidx.
  { pose proof (Nat.div_mod_eq m 4).
    pose proof (Nat.mod_upper_bound m 4). lia. }
  rewrite Hidx.
  unfold Pkcs7.pad, Pkcs7.blockSizeBytes in *.
  set (n := (16 - List.length data mod 16)%nat) in *.
  pose proof (Nat.mod_upper_bound (List.length data) 16).
  assert (1 <= n <= 16)%nat as Hn by (unfold n; lia).
  rewrite length_app, repeat_length in Hk.
  rewrite app_nth2 by lia.
  rewrite nth_repeat_lt by lia.
  rewrite nat_ascii_embedding by lia.
  replace (S m - n)%nat with (List.length data) by lia.
  rewrite firstn_app, Nat.sub_diag, firstn_O, app_nil_r.
  apply firstn_all.
Qed.

(** ** The payload cipher: Base64 and the OpenSSL format *)

Lemma list_ind3 {A : Type} (P : list A -> Prop) :
  P [] -> (forall x, P [x]) -> (forall x y, P [x; y]) ->
  (forall x y z r, P r -> P (x :: y :: z :: r)) ->
  forall l, P l.
Proof.
  intros H0 H1 H2 Hstep l.
  assert (forall n l, (List.length l <= n)%nat -> P l) as H.
  { induction n as [|n IH]; intros l0 Hl.
    - destruct l0; [exact H0|simpl in Hl; lia].
    - destruct l0 as [|x [|y [|z r]]]; auto.
      apply Hstep, IH. simpl in Hl. lia. }
  apply (H (List.length l)). lia.
Qed.

Lemma charAt_sextet (v : byte) :
  Base64.is_sextet v = true ->
  in_range 0x00 0x7F (Base64.charAt v) = true
  /\ byte_eqb (Base64.charAt v) Base64.paddingChar = false
  /\ Base64.reverseMap (Some (Base64.charAt v)) = v.
Proof.
  destruct v as [[] [] [] [] [] [] [] []]; intros H;
    try discriminate H; vm_compute; auto.
Qed.

Lemma sextet0_ok (x : byte) : Base64.is_sextet (Base64.sextet0 x) = true.
Proof. now destruct x. Qed.

Lemma sextet1_ok (x y : byte) : Base64.is_sextet (Base64.sextet1 x y) = true.
Proof. now destruct x, y. Qed.

Lemma sextet2_ok (y z : byte) : Base64.is_sextet (Base64.sextet2 y z) = true.
Proof. now destruct y, z. Qed.

Lemma sextet3_ok (z : byte) : Base64.is_sextet (Base64.sextet3 z) = true.
Proof. now destruct z. Qed.

Lemma byte1_sextets (x y : byte) :
  Base64.byte1 (Base64.sextet0 x) (Base64.sextet1 x y) = x.
Proof. now destruct x, y. Qed.

Lemma byte2_sextets (x y z : byte) :
  Base64.byte2 (Base64.sextet1 x y) (Base64.sextet2 y z) = y.
Proof. now destruct x, y, z. Qed.

Lemma byte3_sextets (y z : byte) :
  Base64.byte3 (Base64.sextet2 y z) (Base64.sextet3 z) = z.
Proof. now destruct y, z. Qed.

(** The characters of the alphabet pass the scan for code units and for
    the padding character unchanged. *)
Lemma scan_char (v : byte) (l : bytes) :
  Base64.is_sextet v = true ->
  Base64.before_padding (Base64.units (Base64.charAt v :: l))
  = Some (Base64.charAt v) :: Base64.before_padding (Base64.units l).
Proof.
  intros H. destruct (charAt_sextet v H) as [Hr [Hp _]].
  cbn [Base64.units]. rewrite Hr. cbn [Base64.before_padding].
  now rewrite Hp.
Qed.

Lemma scan_padding (l : bytes) :
  Base64.before_padding (Base64.units (Base64.paddingChar :: l)) = [].
Proof. reflexivity. Qed.

Lemma parseLoop_stringify_chars (wordArray : bytes) :
  Base64.parseLoop
    (Base64.before_padding
       (Base64.units (Base64.stringify_chars wordArray)))
  = wordArray.
Proof.
  induction wordArray as [|x|x y|x y z r IH] using list_ind3.
  - reflexivity.
  - cbn [Base64.stringify_chars].
    rewrite !scan_char by auto using sextet0_ok, sextet1_ok.
    rewrite scan_padding. cbn [Base64.parseLoop].
    destruct (charAt_sextet _ (sextet0_ok x)) as [_ [_ ->]].
    destruct (charAt_sextet _ (sextet1_ok x algo_AES.zero)) as [_ [_ ->]].
    now rewrite byte1_sextets.
  - cbn [Base64.stringify_chars].
    rewrite !scan_char by auto using sextet0_ok, sextet1_ok, sextet2_ok.
    rewrite scan_padding. cbn [Base64.parseLoop].
    destruct (charAt_sextet _ (sextet0_ok x)) as [_ [_ ->]].
    destruct (charAt_sextet _ (sextet1_ok x y)) as [_ [_ ->]].
    destruct (charAt_sextet _ (sextet2_ok y algo_AES.zero)) as [_ [_ ->]].
    now rewrite byte1_sextets, byte2_sextets.
  - cbn [Base64.stringify_chars].
    rewrite !scan_char
      by auto using sextet0_ok, sextet1_ok, sextet2_ok, sextet3_ok.
    cbn [Base64.parseLoop].
    destruct (charAt_sextet _ (sextet0_ok x)) as [_ [_ ->]].
    destruct (charAt_sextet _ (sextet1_ok x y)) as [_ [_ ->]].
    destruct (charAt_sextet _ (sextet2_ok y z)) as [_ [_ ->]].
    destruct (charAt_sextet _ (sextet3_ok z)) as [_ [_ ->]].
    now rewrite byte1_sextets, byte2_sextets, byte3_sextets, IH.
Qed.

Lemma bytes_of_string_of_bytes (bs : bytes) :
  bytes_of_string (string_of_bytes bs) = bs.
Proof. apply list_ascii_of_string_of_list_ascii. Qed.

Lemma string_of_bytes_of_string (s : string) :
  string_of_bytes (bytes_of_string s) = s.
Proof. apply string_of_list_ascii_of_string. Qed.

Lemma Base64_parse_stringify (wordArray : bytes) :
  Base64.parse (Base64.stringify wordArray) = wordArray.
Proof.
  unfold Base64.parse, Base64.stringify.
  rewrite bytes_of_string_of_bytes. apply parseLoop_stringify_chars.
Qed.

Lemma bytes_eqb_refl (x : bytes) : bytes_eqb x x = true.
Proof.
  induction x as [|a x IH]; simpl; [reflexivity|].
  unfold byte_eqb. now rewrite Ascii.eqb_refl.
Qed.

(** Parsing the string of salted cipher parameters gives the salt and the
    ciphertext back. *)
Lemma OpenSSL_parse_stringify (rnd : nat -> byte) (ct k i : bytes) :
  let cp := {| ciphertext := ct; salt := Some (random rnd 8);
               key := k; iv := i |} in
  ciphertext (OpenSSL.parse (OpenSSL.stringify cp)) = ct
  /\ salt (OpenSSL.parse (OpenSSL.stringify cp)) = Some (random rnd 8).
Proof.
  intros cp. unfold OpenSSL.stringify, OpenSSL.parse. cbn [salt ciphertext cp].
  rewrite Base64_parse_stringify.
  change (firstn 8 (OpenSSL.magic ++ random rnd 8 ++ ct)) with OpenSSL.magic.
  rewrite bytes_eqb_refl. cbn [ciphertext salt].
  split; reflexivity.
Qed.

(** ** The payload cipher: round trip *)

Lemma AES_decrypt_encrypt (rnd rnd' : nat -> byte)
      (message password : string) :
  valid_utf8 (bytes_of_string password) = true ->
  valid_utf8 (bytes_of_string message) = true ->
  exists cp,
    AES.encrypt rnd message password = Normal cp
    /\ AES.decrypt rnd' (OpenSSL.stringify cp) password
       = Normal (bytes_of_string message).
Proof.
  intros Hpw Hmsg.
  unfold AES.encrypt, AES.decrypt, AES.derive, Utf8.parse.
  rewrite Hpw, Hmsg. cbn [bind].
  set (saltBytes := random rnd 8).
  set (derived := EvpKDF.compute (AES.keySize + AES.ivSize)
                                 (bytes_of_string password) saltBytes).
  cbn [fst snd].
  set (k := firstn (AES.keySize * 4) derived).
  set (i := skipn (AES.keySize * 4) derived).
  set (rks := algo_AES.keySchedule k).
  set (padded := Pkcs7.pad (bytes_of_string message)).
  eexists. split; [reflexivity|].
  match goal with
  | |- context [OpenSSL.stringify ?c] =>
      destruct (OpenSSL_parse_stringify rnd (ciphertext c) k i) as [Hct Hsalt]
  end.
  cbn [ciphertext] in Hct, Hsalt. fold saltBytes in Hct, Hsalt.
  rewrite Hct, Hsalt. cbn [bind fst snd].
  fold derived. fold k. fold i. fold rks.
  destruct (pad_length (bytes_of_string message)) as [n [Hn Hn1]].
  fold padded in Hn.
  destruct (whole_blocks n padded Hn) as [bl [Hall [Hlen Hcat]]].
  assert (blocks (List.length padded) padded = bl) as Hbl.
  { replace (blocks (List.length padded) padded)
      with (blocks (List.length padded) (List.concat bl))
      by now rewrite Hcat.
    apply blocks_concat; [assumption|]. unfold bytes in *. lia. }
  rewrite Hbl.
  pose proof (CBC_encrypt_lengths rks bl i Hall) as Hall'.
  pose proof (CBC_encrypt_count rks bl i) as Hcount.
  rewrite (concat_blocks_length _ Hall'), Hcount, Hlen.
  rewrite blocks_concat by (try assumption; unfold bytes in *; lia).
  rewrite CBC_decrypt_encrypt, Hcat, <- Hn.
  unfold padded. now rewrite unpad_pad.
Qed.

(** C8 (as written, refuted): a plaintext with an unpaired surrogate has
    no UTF-8 encoding; [encryptMessage] throws a [URIError] on it, so there
    is no ciphertext to decrypt back.  The same happens for any plaintext
    when the key is such a string. *)
Lemma unpaired_surrogate_is_not_encrypted :
  encryptMessage Sample.ctx Sample.rnd Sample.lone_surrogate = Throw URIError
  /\ ~ (exists C,
           encryptMessage Sample.ctx Sample.rnd Sample.lone_surrogate
           = Normal C
           /\ decryptMessage Sample.ctx Sample.rnd C
              = Normal Sample.lone_surrogate)
  /\ encryptMessage Sample.ctx_surrogate Sample.rnd "hello" = Throw URIError.
Proof.
  assert (encryptMessage Sample.ctx Sample.rnd Sample.lone_surrogate
          = Throw URIError) as H by (vm_compute; reflexivity).
  split; [exact H|]. split; [|vm_compute; reflexivity].
  intros [C [HC _]]. rewrite H in HC. discriminate.
Qed.

(** C8 (amended): for every plaintext P and every configured key that are
    well-formed text (they have a UTF-8 encoding), and for every salt the
    library draws, encrypting P returns a ciphertext string, and decrypting
    that string under the same key returns P. *)
Theorem decrypt_inverts_encrypt_on_text (ctx : Context)
        (rnd rnd' : nat -> byte) (P : string) :
  valid_utf8 (bytes_of_string (secretKey ctx)) = true ->
  valid_utf8 (bytes_of_string P) = true ->
  exists C,
    encryptMessage ctx rnd P = Normal C
    /\ decryptMessage ctx rnd' C = Normal P.
Proof.
  intros Hk HP.
  destruct (AES_decrypt_encrypt rnd rnd' P (secretKey ctx) Hk HP)
    as [cp [Henc Hdec]].
  exists (OpenSSL.stringify cp). unfold encryptMessage, decryptMessage.
  rewrite Henc, Hdec. cbn [bind]. split; [reflexivity|].
  unfold Utf8.stringify. rewrite HP.
  now rewrite string_of_bytes_of_string.
Qed.

Lemma decrypt_inverts_encrypt_on_text_witness :
  valid_utf8 (bytes_of_string (secretKey Sample.ctx)) = true
  /\ valid_utf8 (bytes_of_string "hello") = true
  /\ exists C,
      encryptMessage Sample.ctx Sample.rnd "hello" = Normal C
      /\ decryptMessage Sample.ctx Sample.rnd C = Normal "hello".
Proof.
  split; [reflexivity|]. split; [reflexivity|].
  exact (decrypt_inverts_encrypt_on_text
           Sample.ctx Sample.rnd Sample.rnd "hello" eq_refl eq_refl).
Defined.

(** ** Decryption under another key *)

(** C6 (as written, refuted): "hello" is encrypted under the default key;
    a client configured with the key "other-key" decrypts the ciphertext
    to the empty string, without any error. *)
Lemma wrong_key_returns_a_string :
  encryptMessage Sample.ctx Sample.rnd "hello" = Normal Sample.hello_cipher
  /\ secretKey Sample.ctx_other <> secretKey Sample.ctx
  /\ decryptMessage Sample.ctx_other Sample.rnd Sample.hello_cipher
     = Normal "".
Proof.
  split; [vm_compute; reflexivity|].
  split; [discriminate|vm_compute; reflexivity].
Qed.

(** C6 (amended): for every ciphertext string and every configured key
    that is well-formed text, whatever key the ciphertext was produced
    under, the library decrypts and unpads without any check, and
    [decryptMessage] then returns the resulting bytes as a string when
    they are well-formed UTF-8 and throws the library's
    [Error('Malformed UTF-8 data')] when they are not; these are the only
    outcomes. *)
Theorem decrypt_outcome_is_utf8_validity (ctx : Context)
        (rnd : nat -> byte) (C : string) :
  valid_utf8 (bytes_of_string (secretKey ctx)) = true ->
  exists bs,
    AES.decrypt rnd C (secretKey ctx) = Normal bs
    /\ ((valid_utf8 bs = true
         /\ decryptMessage ctx rnd C = Normal (string_of_bytes bs))
        \/ (valid_utf8 bs = false
            /\ decryptMessage ctx rnd C
               = Throw (Error "Malformed UTF-8 data"))).
Proof.
  intros Hk. unfold decryptMessage, AES.decrypt, AES.derive, Utf8.parse.
  rewrite Hk. cbn [bind].
  eexists. split; [reflexivity|].
  unfold Utf8.stringify.
  match goal with
  | |- context [valid_utf8 ?b] => destruct (valid_utf8 b); auto
  end.
Qed.

Lemma decrypt_outcome_is_utf8_validity_witness :
  valid_utf8 (bytes_of_string (secretKey Sample.ctx_other)) = true
  /\ exists bs,
      AES.decrypt Sample.rnd Sample.hello_cipher (secretKey Sample.ctx_other)
      = Normal bs
      /\ ((valid_utf8 bs = true
           /\ decryptMessage Sample.ctx_other Sample.rnd Sample.hello_cipher
              = Normal (string_of_bytes bs))
          \/ (valid_utf8 bs = false
              /\ decryptMessage Sample.ctx_other Sample.rnd
                                Sample.hello_cipher
                 = Throw (Error "Malformed UTF-8 data"))).
Proof.
  split; [reflexivity|].
  exact (decrypt_outcome_is_utf8_validity
           Sample.ctx_other Sample.rnd Sample.hello_cipher eq_refl).
Defined.

(** ** Seeding from 'initial messages' *)

Lemma decrypt_all_outcome (ctx : Context) (rnd : nat -> nat -> byte)
      (ms : list Message.t) :
  forall i,
    (exists ms',
        decrypt_all ctx rnd i ms = Normal ms'
        /\ List.length ms' = List.length ms
        /\ map Message.id ms' = map Message.id ms
        /\ forall j m',
            nth_error ms' j = Some m' ->
            exists m,
              nth_error ms j = Some m
              /\ decryptMessage ctx (rnd (i + j)%nat) (Message.content m)
                 = Normal (Message.content m')
              /\ m' = Message.with_content (Message.content m') m)
    \/ (exists j m e,
           nth_error ms j = Some m
           /\ decryptMessage ctx (rnd (i + j)%nat) (Message.content m)
              = Throw e
           /\ decrypt_all ctx rnd i ms = Throw e).
Proof.
  induction ms as [|m ms IH]; intros i.
  - left. exists []. repeat split; auto.
    intros [|j] m' H; discriminate H.
  - cbn [decrypt_all].
    destruct (decryptMessage ctx (rnd i) (Message.content m)) as [c|e] eqn:E.
    + cbn [bind].
      destruct (IH (S i)) as [[ms' [Hd [Hl [Hi Hn]]]]|[j [m0 [e [Hj [He Hd]]]]]].
      * left. exists (Message.with_content c m :: ms').
        rewrite Hd. cbn [bind]. split; [reflexivity|].
        split; [simpl; now rewrite Hl|].
        split; [simpl; now rewrite Hi|].
        intros [|j] m' H.
        -- inversion H; subst m'. exists m. rewrite Nat.add_0_r.
           repeat split; auto.
        -- destruct (Hn j m' H) as [m1 [H1 [H2 H3]]].
           exists m1. replace (i + S j)%nat with (S i + j)%nat by lia.
           repeat split; auto.
      * right. exists (S j), m0, e.
        replace (i + S j)%nat with (S i + j)%nat by lia.
        rewrite Hd. repeat split; auto.
    + right. exists 0%nat, m, e. rewrite Nat.add_0_r.
      repeat split; auto.
Qed.

(** C7 (as written, refuted): room A is seeded with two messages, the
    second one encrypted by a sender whose key is another one; its
    decryption throws, the handler is left by the exception before it
    updates anything, and the sequence stays empty instead of holding two
    entries. *)
Lemma seed_with_undecryptable_message_is_lost :
  let delivered :=
    [Sample.msg "m1" Sample.hello_cipher sent "A";
     Sample.msg "m2" Sample.hello_cipher_old sent "A"] in
  let outcome :=
    on_initial_messages Sample.ctx (fun _ => Sample.rnd) (Some "A")
                        delivered Sample.inA in
  encryptMessage Sample.ctx_old Sample.rnd "hello"
  = Normal Sample.hello_cipher_old
  /\ outcome = Throw (Error "Malformed UTF-8 data")
  /\ messages (state_after Sample.inA outcome) = []
  /\ List.length (messages (state_after Sample.inA outcome))
     <> List.length delivered.
Proof.
  cbv zeta.
  assert (on_initial_messages Sample.ctx (fun _ => Sample.rnd) (Some "A")
            [Sample.msg "m1" Sample.hello_cipher sent "A";
             Sample.msg "m2" Sample.hello_cipher_old sent "A"] Sample.inA
          = Throw (Error "Malformed UTF-8 data")) as H
      by (vm_compute; reflexivity).
  split; [vm_compute; reflexivity|].
  rewrite H. split; [reflexivity|].
  split; [reflexivity|discriminate].
Qed.

(** C7 (amended): an 'initial messages' event for the selected room
    decrypts the content of each delivered message in order.  When every
    decryption returns, the sequence becomes the delivered list with each
    content replaced by its decryption: same length, same ids in the same
    order.  When a decryption throws, the handler throws that error and no
    state is set: nothing is retained, and there is no marker for content
    that cannot be decrypted. *)
Theorem seed_decrypts_all_or_throws (ctx : Context)
        (rnd : nat -> nat -> byte) (r : Room.t)
        (initialMessages : list Message.t) (st : State) :
  selectedRoom st = Some r ->
  (exists ms',
      on_initial_messages ctx rnd (Some (Room.id r)) initialMessages st
      = Normal (setMessages ms' st)
      /\ List.length ms' = List.length initialMessages
      /\ map Message.id ms' = map Message.id initialMessages
      /\ forall j m',
          nth_error ms' j = Some m' ->
          exists m,
            nth_error initialMessages j = Some m
            /\ decryptMessage ctx (rnd j) (Message.content m)
               = Normal (Message.content m')
            /\ m' = Message.with_content (Message.content m') m)
  \/ (exists j m e,
         nth_error initialMessages j = Some m
         /\ decryptMessage ctx (rnd j) (Message.content m) = Throw e
         /\ on_initial_messages ctx rnd (Some (Room.id r)) initialMessages st
            = Throw e
         /\ state_after st
              (on_initial_messages ctx rnd (Some (Room.id r))
                                   initialMessages st)
            = st).
Proof.
  intros Hsel. unfold on_initial_messages. rewrite Hsel.
  cbn [option_map opt_string_eqb]. rewrite String.eqb_refl.
  destruct (decrypt_all_outcome ctx rnd initialMessages 0)
    as [[ms' [Hd H]]|[j [m [e [Hj [He Hd]]]]]].
  - left. exists ms'. rewrite Hd. cbn [bind]. split; [reflexivity|exact H].
  - right. exists j, m, e. rewrite Hd. cbn [bind state_after].
    repeat split; auto.
Qed.

Lemma seed_decrypts_all_or_throws_witness :
  let delivered := [Sample.msg "m1" Sample.hello_cipher sent "A"] in
  let rnd := fun _ : nat => Sample.rnd in
  selectedRoom Sample.inA = Some Sample.roomA
  /\ ((exists ms',
          on_initial_messages Sample.ctx rnd (Some "A") delivered Sample.inA
          = Normal (setMessages ms' Sample.inA)
          /\ List.length ms' = List.length delivered
          /\ map Message.id ms' = map Message.id delivered
          /\ forall j m',
              nth_error ms' j = Some m' ->
              exists m,
                nth_error delivered j = Some m
                /\ decryptMessage Sample.ctx (rnd j) (Message.content m)
                   = Normal (Message.content m')
                /\ m' = Message.with_content (Message.content m') m)
      \/ (exists j m e,
             nth_error delivered j = Some m
             /\ decryptMessage Sample.ctx (rnd j) (Message.content m)
                = Throw e
             /\ on_initial_messages Sample.ctx rnd (Some "A") delivered
                                    Sample.inA
                = Throw e
             /\ state_after Sample.inA
                  (on_initial_messages Sample.ctx rnd (Some "A") delivered
                                       Sample.inA)
                = Sample.inA)).
Proof.
  cbv zeta. split; [reflexivity|].
  exact (seed_decrypts_all_or_throws
           Sample.ctx (fun _ => Sample.rnd) Sample.roomA
           [Sample.msg "m1" Sample.hello_cipher sent "A"] Sample.inA
           eq_refl).
Defined.

(** ** Appending inbound messages *)

Lemma count_id_app (messageId : string) (l : list Message.t)
      (m : Message.t) (st : State) :
  count_id messageId (setMessages (l ++ [m]) st)
  = (List.length
       (filter (fun x => String.eqb (Message.id x) messageId) l)
     + (if String.eqb (Message.id m) messageId then 1 else 0))%nat.
Proof.
  unfold count_id. cbn [messages setMessages].
  rewrite filter_app, length_app. cbn [filter].
  now destruct (String.eqb (Message.id m) messageId).
Qed.

Lemma chat_message_appends (ctx : Context) (rnd : nat -> byte)
      (msg : Message.t) (r : Room.t) (c : string) (st : State) :
  selectedRoom st = Some r ->
  Message.roomId msg = Some (Room.id r) ->
  decryptMessage ctx rnd (Message.content msg) = Normal c ->
  on_chat_message ctx rnd msg st
  = Normal (setMessages (messages st ++ [Message.with_content c msg]) st).
Proof.
  intros Hsel Hroom Hdec. unfold on_chat_message.
  rewrite Hsel, Hroom. cbn [option_map opt_string_eqb].
  rewrite String.eqb_refl, Hdec. reflexivity.
Qed.

(** C3 (as written, refuted): the same message arrives twice while its
    room is open; the sequence then holds two entries with its id. *)
Lemma same_message_twice_is_stored_twice :
  exists st',
    run Sample.ctx
        [ChatMessage Sample.rnd
                     (Sample.msg "m1" Sample.hello_cipher sent "A");
         ChatMessage Sample.rnd
                     (Sample.msg "m1" Sample.hello_cipher sent "A")]
        Sample.inA = Normal st'
    /\ map Message.id (messages st') = ["m1"; "m1"]
    /\ count_id "m1" st' = 2%nat
    /\ count_id "m1" st' <> 1%nat.
Proof.
  eexists. split; [vm_compute; reflexivity|].
  split; [reflexivity|]. split; [reflexivity|discriminate].
Qed.

(** C3 (amended): an inbound 'chat message' whose room is the selected one
    and whose content decrypts is added at the end of the sequence every
    time it arrives, whether or not its id is already there: after it has
    arrived twice the sequence ends with two entries for it and holds two
    more entries with its id than before. *)
Theorem chat_message_is_appended_every_time (ctx : Context)
        (rnd1 rnd2 : nat -> byte) (msg : Message.t) (r : Room.t)
        (c1 c2 : string) (st : State) :
  selectedRoom st = Some r ->
  Message.roomId msg = Some (Room.id r) ->
  decryptMessage ctx rnd1 (Message.content msg) = Normal c1 ->
  decryptMessage ctx rnd2 (Message.content msg) = Normal c2 ->
  exists st',
    run ctx [ChatMessage rnd1 msg; ChatMessage rnd2 msg] st = Normal st'
    /\ messages st'
       = messages st
         ++ [Message.with_content c1 msg; Message.with_content c2 msg]
    /\ count_id (Message.id msg) st'
       = (count_id (Message.id msg) st + 2)%nat.
Proof.
  intros Hsel Hroom H1 H2.
  pose proof (chat_message_appends ctx rnd1 msg r c1 st Hsel Hroom H1) as Ha.
  set (st1 := setMessages (messages st ++ [Message.with_content c1 msg]) st)
    in *.
  pose proof (chat_message_appends ctx rnd2 msg r c2 st1 Hsel Hroom H2) as Hb.
  eexists. split.
  - cbn [run step bind]. rewrite Ha. cbn [bind]. rewrite Hb. reflexivity.
  - split.
    + cbn [messages setMessages st1]. now rewrite <- app_assoc.
    + rewrite count_id_app. unfold st1 at 1. cbn [messages setMessages].
      rewrite filter_app, length_app. cbn [filter Message.with_content
                                             Message.id].
      rewrite String.eqb_refl. unfold count_id. simpl. lia.
Qed.

Lemma chat_message_is_appended_every_time_witness :
  selectedRoom Sample.inA = Some Sample.roomA
  /\ Message.roomId (Sample.msg "m1" Sample.hello_cipher sent "A")
     = Some (Room.id Sample.roomA)
  /\ decryptMessage Sample.ctx Sample.rnd Sample.hello_cipher
     = Normal "hello"
  /\ exists st',
      run Sample.ctx
          [ChatMessage Sample.rnd
                       (Sample.msg "m1" Sample.hello_cipher sent "A");
           ChatMessage Sample.rnd
                       (Sample.msg "m1" Sample.hello_cipher sent "A")]
          Sample.inA = Normal st'
      /\ messages st'
         = messages Sample.inA
           ++ [Message.with_content
                 "hello" (Sample.msg "m1" Sample.hello_cipher sent "A");
               Message.with_content
                 "hello" (Sample.msg "m1" Sample.hello_cipher sent "A")]
      /\ count_id "m1" st' = (count_id "m1" Sample.inA + 2)%nat.
Proof.
  split; [reflexivity|]. split; [reflexivity|].
  split; [vm_compute; reflexivity|].
  apply (chat_message_is_appended_every_time
           Sample.ctx Sample.rnd Sample.rnd
           (Sample.msg "m1" Sample.hello_cipher sent "A") Sample.roomA
           "hello" "hello" Sample.inA);
    try reflexivity; vm_compute; reflexivity.
Defined.

(** ** Local submission *)

(** C4 (as written, refuted): the user types "hello" and submits it, then
    the server's message with the same content and another id arrives.
    The submission has added nothing to the sequence, which holds one
    message afterwards, not two. *)
Lemma submit_then_echo_gives_one_message :
  exists st1 st2,
    run Sample.ctx [ChangeInput "hello"; Submit Sample.rnd] Sample.inA
    = Normal st1
    /\ messages st1 = []
    /\ run Sample.ctx
           [ChatMessage Sample.rnd
                        (Sample.msg "srv-1" Sample.hello_cipher sent "A")]
           st1 = Normal st2
    /\ map Message.content (messages st2) = ["hello"]
    /\ List.length (messages st2) <> 2%nat.
Proof.
  eexists. eexists.
  split; [vm_compute; reflexivity|].
  split; [reflexivity|].
  split; [vm_compute; reflexivity|].
  split; [reflexivity|discriminate].
Qed.

(** C4 (amended): with a room selected and the socket there, sending
    content that is well-formed text and not blank encrypts it, emits one
    'chat message' event with the room id, the ciphertext and the kind, and
    clears the draft; the message sequence is left as it is (no provisional
    message, no local id).  The sent text enters the sequence when a
    'chat message' carrying that ciphertext arrives for the room: the
    sequence is then longer by that one message, its content decrypted
    back to the text. *)
Theorem send_emits_and_leaves_sequence (ctx : Context)
        (rnd rnd' : nat -> byte) (type : MessageType) (content : string)
        (r : Room.t) (st : State) :
  selectedRoom st = Some r ->
  socketRef st = true ->
  trim content <> "" ->
  valid_utf8 (bytes_of_string (secretKey ctx)) = true ->
  valid_utf8 (bytes_of_string content) = true ->
  exists C st',
    handleSendMessage ctx rnd type content st = Normal st'
    /\ emitted st'
       = emitted st ++ [(now st, emit_chat_message (Room.id r) C type)]
    /\ newMessage st' = ""
    /\ messages st' = messages st
    /\ forall echo,
        Message.roomId echo = Some (Room.id r) ->
        Message.content echo = C ->
        on_chat_message ctx rnd' echo st'
        = Normal (setMessages
                    (messages st ++ [Message.with_content content echo])
                    st').
Proof.
  intros Hsel Hsock Htrim Hk Hc.
  destruct (AES_decrypt_encrypt rnd rnd' content (secretKey ctx) Hk Hc)
    as [cp [Hcp Hbytes]].
  assert (encryptMessage ctx rnd content = Normal (OpenSSL.stringify cp))
    as Henc by (unfold encryptMessage; now rewrite Hcp).
  assert (decryptMessage ctx rnd' (OpenSSL.stringify cp) = Normal content)
    as Hdec.
  { unfold decryptMessage, Utf8.stringify. rewrite Hbytes. cbn [bind].
    now rewrite Hc, string_of_bytes_of_string. }
  exists (OpenSSL.stringify cp). eexists. unfold handleSendMessage.
  destruct (String.eqb_spec (trim content) "") as [E|_]; [contradiction|].
  cbn [negb]. rewrite Hsel, Henc. cbn [bind].
  split; [reflexivity|].
  unfold emit. rewrite Hsock.
  split; [reflexivity|]. split; [reflexivity|]. split; [reflexivity|].
  intros echo Hroom Hcontent.
  rewrite (chat_message_appends ctx rnd' echo r content);
    [reflexivity|exact Hsel|exact Hroom|now rewrite Hcontent].
Qed.

Lemma send_emits_and_leaves_sequence_witness :
  selectedRoom Sample.inA = Some Sample.roomA
  /\ socketRef Sample.inA = true
  /\ trim "hello" <> ""
  /\ valid_utf8 (bytes_of_string (secretKey Sample.ctx)) = true
  /\ valid_utf8 (bytes_of_string "hello") = true
  /\ exists C st',
      handleSendMessage Sample.ctx Sample.rnd text "hello" Sample.inA
      = Normal st'
      /\ emitted st'
         = emitted Sample.inA
           ++ [(now Sample.inA,
                emit_chat_message (Room.id Sample.roomA) C text)]
      /\ newMessage st' = ""
      /\ messages st' = messages Sample.inA
      /\ forall echo,
          Message.roomId echo = Some (Room.id Sample.roomA) ->
          Message.content echo = C ->
          on_chat_message Sample.ctx Sample.rnd echo st'
          = Normal (setMessages
                      (messages Sample.inA
                       ++ [Message.with_content "hello" echo])
                      st').
Proof.
  assert (trim "hello" <> "") as Ht by (vm_compute; discriminate).
  split; [reflexivity|]. split; [reflexivity|]. split; [exact Ht|].
  split; [reflexivity|]. split; [reflexivity|].
  exact (send_emits_and_leaves_sequence
           Sample.ctx Sample.rnd Sample.rnd text "hello" Sample.roomA
           Sample.inA eq_refl eq_refl Ht eq_refl eq_refl).
Defined.


(** * Further properties *)

(** ** Typing presence along any run *)

(** One event keeps the timeouts tracked and the socket, and the balance
    between the typing events emitted and the timeouts pending. *)
Lemma typing_step (ctx : Context) (ev : Event) (st st' : State) :
  timers_tracked st -> socketRef st = true ->
  step ctx st ev = Normal st' ->
  timers_tracked st'
  /\ socketRef st' = true
  /\ (n_typing false st' + List.length (timers st') + n_typing true st
      <= n_typing true st' + n_typing false st + List.length (timers st))%nat.
Proof.
  intros [Hnh Ht] Hs Hstep.
  destruct st as [rs sel ms nm sb ty sq up po so ref t ts nh out].
  simpl in Hnh, Ht, Hs. subst so.
  destruct ev; simpl in Hstep.
  - (* Elapse *)
    inversion Hstep; subst st'; clear Hstep.
    unfold elapse, timers_tracked, n_typing, typing_events; simpl.
    destruct Ht as [->|[h [d [r [-> ->]]]]]; simpl.
    + repeat split; auto; lia.
    + destruct (d <=? t + dt); simpl.
      * unfold fire, emit; simpl. rewrite !filter_app, !length_app. simpl.
        repeat split; auto; lia.
      * repeat split; eauto 6; lia.
  - (* ClickRoom *)
    inversion Hstep; subst st'. unfold timers_tracked, n_typing, typing_events.
    simpl. repeat split; auto; lia.
  - (* ChangeInput *)
    inversion Hstep; subst st'; clear Hstep.
    unfold change_input, handleTyping; simpl.
    destruct sel as [r0|]; simpl.
    + destruct nh as [|nh]; [congruence|].
      unfold timers_tracked, n_typing, typing_events, emit; simpl.
      destruct Ht as [->|[h [d [r [-> ->]]]]]; simpl.
      * destruct ref as [[|h]|]; simpl; rewrite !filter_app, !length_app;
          simpl; repeat split; eauto 6; lia.
      * rewrite Nat.eqb_refl. simpl. rewrite !filter_app, !length_app. simpl.
        repeat split; eauto 6; lia.
    + unfold timers_tracked, n_typing, typing_events. simpl.
      repeat split; auto; lia.
  - (* ChangeSearch *)
    inversion Hstep; subst st'. unfold timers_tracked, n_typing, typing_events.
    simpl. repeat split; auto; lia.
  - (* Submit *)
    unfold handleSendMessage in Hstep. simpl in Hstep.
    destruct (negb (String.eqb (trim nm) "")), sel as [r0|];
      try (inversion Hstep; subst st';
           unfold timers_tracked, n_typing, typing_events; simpl;
           repeat split; auto; lia).
    destruct (encryptMessage ctx rnd nm) as [c|e]; simpl in Hstep;
      [|discriminate].
    inversion Hstep; subst st'.
    unfold timers_tracked, n_typing, typing_events, emit; simpl.
    rewrite !filter_app, !length_app. simpl. repeat split; auto; lia.
  - (* Upload *)
    unfold handleSendMessage in Hstep. simpl in Hstep.
    destruct (negb (String.eqb (trim content) "")), sel as [r0|];
      try (inversion Hstep; subst st';
           unfold timers_tracked, n_typing, typing_events; simpl;
           repeat split; auto; lia).
    destruct (encryptMessage ctx rnd content) as [c|e]; simpl in Hstep;
      [|discriminate].
    inversion Hstep; subst st'.
    unfold timers_tracked, n_typing, typing_events, emit; simpl.
    rewrite !filter_app, !length_app. simpl. repeat split; auto; lia.
  - (* InitialMessages *)
    unfold on_initial_messages in Hstep. simpl in Hstep.
    destruct (opt_string_eqb (option_map Room.id sel) roomId).
    + destruct (decrypt_all ctx rnd 0 initialMessages) as [l|e];
        simpl in Hstep; [|discriminate].
      inversion Hstep; subst st'.
      unfold timers_tracked, n_typing, typing_events; simpl.
      repeat split; auto; lia.
    + inversion Hstep; subst st'.
      unfold timers_tracked, n_typing, typing_events; simpl.
      repeat split; auto; lia.
  - (* ChatMessage *)
    unfold on_chat_message in Hstep. simpl in Hstep.
    destruct (opt_string_eqb (option_map Room.id sel) (Message.roomId msg)).
    + destruct (decryptMessage ctx rnd (Message.content msg)) as [c|e];
        simpl in Hstep; [|discriminate].
      inversion Hstep; subst st'.
      unfold timers_tracked, n_typing, typing_events; simpl.
      repeat split; auto; lia.
    + inversion Hstep; subst st'.
      unfold timers_tracked, n_typing, typing_events; simpl.
      repeat split; auto; lia.
  - (* UserTyping *)
    inversion Hstep; subst st'. unfold on_user_typing.
    destruct (negb (String.eqb userId (session_user_id ctx)));
      unfold timers_tracked, n_typing, typing_events; simpl;
      repeat split; auto; lia.
  - inversion Hstep; subst st'. unfold timers_tracked, n_typing, typing_events.
    simpl. repeat split; auto; lia.
  - inversion Hstep; subst st'. unfold timers_tracked, n_typing, typing_events.
    simpl. repeat split; auto; lia.
  - inversion Hstep; subst st'. unfold timers_tracked, n_typing, typing_events.
    simpl. repeat split; auto; lia.
  - inversion Hstep; subst st'. unfold timers_tracked, n_typing, typing_events.
    simpl. repeat split; auto; lia.
  - inversion Hstep; subst st'. unfold timers_tracked, n_typing, typing_events.
    simpl. repeat split; auto; lia.
  - inversion Hstep; subst st'. unfold timers_tracked, n_typing, typing_events.
    simpl. repeat split; auto; lia.
Qed.

(** X1: along any run that starts with the socket there, positive timer
    handles and at most the timeout of the ref pending, at most one
    timeout is ever pending, and the typing=false events emitted during
    the run plus the timeouts pending at its end never outnumber the
    typing=true events emitted during the run plus the timeouts pending at
    its start. *)
Theorem typing_stops_never_outnumber_starts (ctx : Context)
        (evs : list Event) (st st' : State) :
  timers_tracked st -> socketRef st = true ->
  run ctx evs st = Normal st' ->
  (List.length (timers st') <= 1)%nat
  /\ timers_tracked st'
  /\ (n_typing false st' + List.length (timers st') + n_typing true st
      <= n_typing true st' + n_typing false st + List.length (timers st))%nat.
Proof.
  revert st. induction evs as [|ev evs IH]; intros st Ht Hs Hrun.
  - inversion Hrun; subst st'. split; [|split; [exact Ht|lia]].
    destruct Ht as [_ [->|[h [d [r [-> _]]]]]]; simpl; lia.
  - simpl in Hrun.
    destruct (step ctx st ev) as [st1|e] eqn:E; simpl in Hrun; [|discriminate].
    destruct (typing_step ctx ev st st1 Ht Hs E) as [Ht1 [Hs1 Hc1]].
    destruct (IH st1 Ht1 Hs1 Hrun) as [Hl [Ht' Hc]].
    split; [exact Hl|]. split; [exact Ht'|lia].
Qed.

Lemma typing_stops_never_outnumber_starts_witness :
  timers_tracked Sample.inA
  /\ socketRef Sample.inA = true
  /\ exists st',
      run Sample.ctx
          [ChangeInput "h"; Elapse 500; ChangeInput "he"; Elapse 2500;
           ChangeInput "hel"; Submit Sample.rnd; Elapse 3000]
          Sample.inA = Normal st'
      /\ (List.length (timers st') <= 1)%nat
      /\ timers_tracked st'
      /\ (n_typing false st' + List.length (timers st')
          + n_typing true Sample.inA
          <= n_typing true st' + n_typing false Sample.inA
             + List.length (timers Sample.inA))%nat.
Proof.
  assert (timers_tracked Sample.inA) as Ht
      by (split; [discriminate|left; reflexivity]).
  split; [exact Ht|]. split; [reflexivity|].
  eexists. split; [vm_compute; reflexivity|].
  exact (typing_stops_never_outnumber_starts
           Sample.ctx
           [ChangeInput "h"; Elapse 500; ChangeInput "he"; Elapse 2500;
            ChangeInput "hel"; Submit Sample.rnd; Elapse 3000]
           Sample.inA _ Ht eq_refl
           ltac:(vm_compute; reflexivity)).
Defined.

(** X2: the callback of the timeout has captured the room of the
    keystroke.  When another room is selected before the timeout falls
    due, the typing=false event is still emitted for the room of the
    keystroke, 2000 ms after it, and nothing is emitted for the new
    room. *)
Theorem typing_stop_goes_to_room_of_keystroke (ctx : Context)
        (r r' : Room.t) (d : Z) (st : State) :
  armed r st -> 2000 <= d ->
  exists st',
    run ctx [ClickRoom r'; Elapse d] st = Normal st'
    /\ selectedRoom st' = Some r'
    /\ timers st' = []
    /\ emitted st'
       = emitted st ++ [(now st + 2000, emit_typing (Room.id r) false)].
Proof.
  destruct st as [rs sel ms nm sb ty sq up po so ref t ts nh out].
  unfold armed; simpl. intros [-> [-> [_ [h [-> ->]]]]] Hd.
  eexists. split; [reflexivity|].
  unfold click_room, elapse, fire, emit; simpl.
  assert ((t + 2000 <=? t + d) = true) as E by (apply Z.leb_le; lia).
  rewrite E. simpl.
  replace (Z.max t (t + 2000)) with (t + 2000) by lia.
  repeat split; reflexivity.
Qed.

Lemma typing_stop_goes_to_room_of_keystroke_witness :
  armed Sample.roomA (change_input "h" Sample.inA)
  /\ 2000 <= 2000
  /\ exists st',
      run Sample.ctx [ClickRoom Sample.roomB; Elapse 2000]
          (change_input "h" Sample.inA) = Normal st'
      /\ selectedRoom st' = Some Sample.roomB
      /\ timers st' = []
      /\ emitted st'
         = emitted (change_input "h" Sample.inA)
           ++ [(now (change_input "h" Sample.inA) + 2000,
                emit_typing (Room.id Sample.roomA) false)].
Proof.
  assert (armed Sample.roomA (change_input "h" Sample.inA)) as Ha.
  { unfold armed. simpl. repeat split; try discriminate.
    exists 0%nat. split; reflexivity. }
  assert (2000 <= 2000) as Hd by lia.
  split; [exact Ha|]. split; [exact Hd|].
  exact (typing_stop_goes_to_room_of_keystroke
           Sample.ctx Sample.roomA Sample.roomB 2000
           (change_input "h" Sample.inA) Ha Hd).
Defined.

(** ** The message sequence along any run *)

Lemma decrypt_all_fields (ctx : Context) (rnd : nat -> nat -> byte)
      (ms : list Message.t) :
  forall i ms',
    decrypt_all ctx rnd i ms = Normal ms' ->
    map Message.id ms' = map Message.id ms
    /\ map Message.roomId ms' = map Message.roomId ms.
Proof.
  induction ms as [|m ms IH]; intros i ms' H; simpl in H.
  - inversion H. split; reflexivity.
  - destruct (decryptMessage ctx (rnd i) (Message.content m)) as [c|e];
      simpl in H; [|discriminate].
    destruct (decrypt_all ctx rnd (S i) ms) as [r|e] eqn:E;
      simpl in H; [|discriminate].
    inversion H; subst ms'. destruct (IH _ _ E) as [H1 H2].
    simpl. now rewrite H1, H2.
Qed.

Lemma opt_string_eqb_eq (x y : option string) :
  opt_string_eqb x y = true -> x = y.
Proof.
  destruct x as [a|], y as [b|]; simpl; try discriminate; auto.
  intros H. apply String.eqb_eq in H. now subst.
Qed.

Lemma status_update_roomIds (messageId : string) (s : Status) (st : State) :
  map Message.roomId (messages (on_message_status_updated messageId s st))
  = map Message.roomId (messages st).
Proof.
  unfold on_message_status_updated; simpl.
  induction (messages st) as [|m l IH]; simpl; [reflexivity|].
  rewrite IH. now destruct (String.eqb (Message.id m) messageId).
Qed.

Lemma Forall_map_eq {A B : Type} (f : A -> B) (b : B) (l : list A) :
  Forall (fun x => f x = b) l <-> Forall (fun y => y = b) (map f l).
Proof.
  induction l as [|a l IH]; simpl; split; intros H; try constructor;
    inversion H; subst; try tauto.
Qed.

Lemma fires_frame (l : list Timeout) (st : State) :
  selectedRoom (fold_left (fun s t => fire t s) l st) = selectedRoom st
  /\ messages (fold_left (fun s t => fire t s) l st) = messages st.
Proof.
  revert st. induction l as [|t l IH]; intros st; simpl; [auto|].
  destruct (IH (fire t st)) as [H1 H2]. rewrite H1, H2.
  unfold fire, emit. simpl. now destruct (socketRef st).
Qed.

Lemma elapse_frame (dt : Z) (st : State) :
  selectedRoom (elapse dt st) = selectedRoom st
  /\ messages (elapse dt st) = messages st.
Proof.
  unfold elapse. cbn [selectedRoom messages with_world].
  match goal with
  | |- context [fold_left _ ?l ?s] => destruct (fires_frame l s) as [H1 H2]
  end.
  rewrite H1, H2. split; reflexivity.
Qed.

Lemma step_keeps_room (ctx : Context) (a : Room.t) (ev : Event)
      (st st1 : State) :
  selectedRoom st = Some a ->
  Forall (fun m => Message.roomId m = Some (Room.id a)) (messages st) ->
  is_click_room ev = false ->
  payload_in_room ev ->
  step ctx st ev = Normal st1 ->
  selectedRoom st1 = Some a
  /\ Forall (fun m => Message.roomId m = Some (Room.id a)) (messages st1).
Proof.
  destruct st as [rs sel ms nm sb ty sq up po so ref t ts nh out].
  simpl. intros -> Hall Hc Hev E.
  destruct ev; simpl in E, Hc; try discriminate Hc.
  - inversion E; subst st1.
    match goal with
    | |- context [elapse dt ?s] => destruct (elapse_frame dt s) as [H1 H2]
    end.
    rewrite H1, H2. split; [reflexivity|exact Hall].
  - inversion E; subst st1. unfold change_input, handleTyping, emit; simpl.
    destruct so, ref as [[|h]|]; simpl; split; auto.
  - inversion E; subst st1. split; [reflexivity|exact Hall].
  - unfold handleSendMessage in E. simpl in E.
    destruct (negb (String.eqb (trim nm) ""));
      [|inversion E; subst; split; [reflexivity|exact Hall]].
    destruct (encryptMessage ctx rnd nm); simpl in E; [|discriminate].
    inversion E; subst st1. unfold emit. simpl.
    destruct so; simpl; split; auto.
  - unfold handleSendMessage in E. simpl in E.
    destruct (negb (String.eqb (trim content) ""));
      [|inversion E; subst; split; [reflexivity|exact Hall]].
    destruct (encryptMessage ctx rnd content); simpl in E; [|discriminate].
    inversion E; subst st1. unfold emit. simpl.
    destruct so; simpl; split; auto.
  - unfold on_initial_messages in E. cbn [selectedRoom option_map] in E.
    destruct (opt_string_eqb (Some (Room.id a)) roomId) eqn:Eq;
      [|inversion E; subst; split; [reflexivity|exact Hall]].
    apply opt_string_eqb_eq in Eq.
    destruct (decrypt_all ctx rnd 0 initialMessages) as [l|] eqn:Ed;
      simpl in E; [|discriminate].
    inversion E; subst st1. simpl. split; [reflexivity|].
    destruct (decrypt_all_fields _ _ _ _ _ Ed) as [_ Hr].
    apply (proj2 (Forall_map_eq Message.roomId _ l)). rewrite Hr.
    apply (proj1 (Forall_map_eq Message.roomId _ initialMessages)).
    simpl in Hev. rewrite <- Eq in Hev. exact Hev.
  - unfold on_chat_message in E. cbn [selectedRoom option_map] in E.
    destruct (opt_string_eqb (Some (Room.id a)) (Message.roomId msg)) eqn:Eq;
      [|inversion E; subst; split; [reflexivity|exact Hall]].
    apply opt_string_eqb_eq in Eq.
    destruct (decryptMessage ctx rnd (Message.content msg)); simpl in E;
      [|discriminate].
    inversion E; subst st1. simpl. split; [reflexivity|].
    apply Forall_app. split; [exact Hall|].
    constructor; [|constructor]. simpl. now rewrite <- Eq.
  - inversion E; subst st1. unfold on_user_typing.
    destruct (negb (String.eqb userId (session_user_id ctx))); simpl;
      split; auto.
  - inversion E; subst st1. split; [reflexivity|].
    apply (proj2 (Forall_map_eq Message.roomId _ _)).
    rewrite status_update_roomIds.
    apply (proj1 (Forall_map_eq Message.roomId _ _)). exact Hall.
  - inversion E; subst st1. split; [reflexivity|exact Hall].
  - inversion E; subst st1. split; [reflexivity|exact Hall].
  - inversion E; subst st1. split; [reflexivity|exact Hall].
  - inversion E; subst st1. split; [reflexivity|exact Hall].
  - inversion E; subst st1. split; [reflexivity|exact Hall].
Qed.

(** X3: as long as the selection is not changed, the sequence holds
    messages of the selected room only: when room A is selected, every
    message of the sequence carries A's id, and every 'initial messages'
    payload of the run holds messages with the room id of the payload,
    then after any run without a click on a room A is still selected and
    every message of the sequence carries A's id. *)
Theorem messages_stay_in_selected_room (ctx : Context) (a : Room.t)
        (evs : list Event) (st st' : State) :
  selectedRoom st = Some a ->
  Forall (fun m => Message.roomId m = Some (Room.id a)) (messages st) ->
  existsb is_click_room evs = false ->
  Forall payload_in_room evs ->
  run ctx evs st = Normal st' ->
  selectedRoom st' = Some a
  /\ Forall (fun m => Message.roomId m = Some (Room.id a)) (messages st').
Proof.
  intros Hsel Hall Hclick Hpay. revert st Hsel Hall Hclick.
  induction Hpay as [|ev evs Hev _ IH]; intros st Hsel Hall Hclick Hrun.
  - inversion Hrun; subst st'. auto.
  - simpl in Hclick. apply orb_false_elim in Hclick.
    destruct Hclick as [Hc Hcs].
    simpl in Hrun.
    destruct (step ctx st ev) as [st1|e] eqn:E; simpl in Hrun; [|discriminate].
    destruct (step_keeps_room ctx a ev st st1 Hsel Hall Hc Hev E)
      as [Hsel1 Hall1].
    now apply (IH st1).
Qed.

Lemma messages_stay_in_selected_room_witness :
  let evs :=
    [ChatMessage Sample.rnd (Sample.msg "m1" Sample.hello_cipher sent "A");
     ChatMessage Sample.rnd (Sample.msg "m2" Sample.hello_cipher sent "B");
     MessageStatusUpdated "m1" read;
     ChangeInput "x"] in
  selectedRoom Sample.inA = Some Sample.roomA
  /\ Forall (fun m => Message.roomId m = Some (Room.id Sample.roomA))
            (messages Sample.inA)
  /\ existsb is_click_room evs = false
  /\ Forall payload_in_room evs
  /\ exists st',
      run Sample.ctx evs Sample.inA = Normal st'
      /\ map Message.id (messages st') = ["m1"]
      /\ selectedRoom st' = Some Sample.roomA
      /\ Forall (fun m => Message.roomId m = Some (Room.id Sample.roomA))
                (messages st').
Proof.
  cbv zeta.
  assert (Forall (fun m => Message.roomId m = Some (Room.id Sample.roomA))
                 (messages Sample.inA)) as Hall by constructor.
  assert (Forall payload_in_room
            [ChatMessage Sample.rnd
                         (Sample.msg "m1" Sample.hello_cipher sent "A");
             ChatMessage Sample.rnd
                         (Sample.msg "m2" Sample.hello_cipher sent "B");
             MessageStatusUpdated "m1" read;
             ChangeInput "x"]) as Hpay
      by (repeat constructor).
  split; [reflexivity|]. split; [exact Hall|]. split; [reflexivity|].
  split; [exact Hpay|].
  eexists. split; [vm_compute; reflexivity|]. split; [reflexivity|].
  exact (messages_stay_in_selected_room
           Sample.ctx Sample.roomA
           [ChatMessage Sample.rnd
                        (Sample.msg "m1" Sample.hello_cipher sent "A");
            ChatMessage Sample.rnd
                        (Sample.msg "m2" Sample.hello_cipher sent "B");
            MessageStatusUpdated "m1" read;
            ChangeInput "x"]
           Sample.inA _ eq_refl Hall eq_refl Hpay
           ltac:(vm_compute; reflexivity)).
Defined.

Lemma status_update_contents (messageId : string) (s : Status) (st : State) :
  map Message.content
      (messages (on_message_status_updated messageId s st))
  = map Message.content (messages st).
Proof.
  unfold on_message_status_updated; simpl.
  induction (messages st) as [|m l IH]; simpl; [reflexivity|].
  rewrite IH. now destruct (String.eqb (Message.id m) messageId).
Qed.

Lemma step_only_appends (ctx : Context) (ev : Event) (st st1 : State) :
  is_initial_messages ev = false ->
  step ctx st ev = Normal st1 ->
  exists added,
    map Message.id (messages st1)
    = map Message.id (messages st) ++ map Message.id added
    /\ map Message.content (messages st1)
       = map Message.content (messages st) ++ map Message.content added.
Proof.
  intros Hc E.
  assert (messages st1 = messages st ->
          exists added,
            map Message.id (messages st1)
            = map Message.id (messages st) ++ map Message.id added
            /\ map Message.content (messages st1)
               = map Message.content (messages st)
                 ++ map Message.content added) as Hsame.
  { intros ->. exists []. simpl. now rewrite !app_nil_r. }
  destruct ev; simpl in E, Hc; try discriminate Hc;
    try (inversion E; subst st1; apply Hsame; reflexivity).
  - inversion E; subst st1. apply Hsame. apply elapse_frame.
  - inversion E; subst st1. apply Hsame.
    unfold change_input, handleTyping, emit.
    destruct (selectedRoom (setNewMessage value st)); [|reflexivity].
    destruct (socketRef (setNewMessage value st)); simpl;
      destruct (typingTimeoutRef st) as [[|h]|]; reflexivity.
  - unfold handleSendMessage in E.
    destruct (negb (String.eqb (trim (newMessage st)) "")),
      (selectedRoom st) as [r0|];
      try (inversion E; subst st1; apply Hsame; reflexivity).
    destruct (encryptMessage ctx rnd (newMessage st)); simpl in E;
      [|discriminate].
    inversion E; subst st1. apply Hsame. unfold emit.
    now destruct (socketRef st).
  - unfold handleSendMessage in E.
    destruct (negb (String.eqb (trim content) "")),
      (selectedRoom st) as [r0|];
      try (inversion E; subst st1; apply Hsame; reflexivity).
    destruct (encryptMessage ctx rnd content); simpl in E; [|discriminate].
    inversion E; subst st1. apply Hsame. unfold emit.
    now destruct (socketRef st).
  - unfold on_chat_message in E.
    destruct (opt_string_eqb _ _);
      [|inversion E; subst st1; apply Hsame; reflexivity].
    destruct (decryptMessage ctx rnd (Message.content msg)) as [c|];
      simpl in E; [|discriminate].
    inversion E; subst st1. exists [Message.with_content c msg].
    simpl. now rewrite !map_app.
  - inversion E; subst st1. apply Hsame. unfold on_user_typing.
    now destruct (negb (String.eqb userId (session_user_id ctx))).
  - inversion E; subst st1. exists [].
    rewrite status_update_ids, status_update_contents. simpl.
    now rewrite !app_nil_r.
Qed.

(** X4: no event other than 'initial messages' removes, reorders or
    rewrites the content of a stored message: after any run without such an
    event the ids and the contents of the sequence are those of before,
    in the same order, followed by those of the messages added. *)
Theorem messages_only_grow_between_seeds (ctx : Context)
        (evs : list Event) (st st' : State) :
  existsb is_initial_messages evs = false ->
  run ctx evs st = Normal st' ->
  exists added,
    map Message.id (messages st')
    = map Message.id (messages st) ++ map Message.id added
    /\ map Message.content (messages st')
       = map Message.content (messages st) ++ map Message.content added.
Proof.
  revert st. induction evs as [|ev evs IH]; intros st Hc Hrun.
  - inversion Hrun; subst st'. exists []. simpl. now rewrite !app_nil_r.
  - simpl in Hc. apply orb_false_elim in Hc. destruct Hc as [Hc Hcs].
    simpl in Hrun.
    destruct (step ctx st ev) as [st1|e] eqn:E; simpl in Hrun; [|discriminate].
    destruct (step_only_appends ctx ev st st1 Hc E) as [l1 [Hi1 Hk1]].
    destruct (IH st1 Hcs Hrun) as [l2 [Hi2 Hk2]].
    exists (l1 ++ l2). rewrite Hi2, Hk2, Hi1, Hk1, !map_app, !app_assoc.
    split; reflexivity.
Qed.

Lemma messages_only_grow_between_seeds_witness :
  let evs :=
    [ChatMessage Sample.rnd (Sample.msg "m1" Sample.hello_cipher sent "A");
     MessageStatusUpdated "m1" read;
     ClickRoom Sample.roomB;
     ChangeSearch "he"] in
  existsb is_initial_messages evs = false
  /\ exists st',
      run Sample.ctx evs Sample.inA = Normal st'
      /\ exists added,
          map Message.id (messages st')
          = map Message.id (messages Sample.inA) ++ map Message.id added
          /\ map Message.content (messages st')
             = map Message.content (messages Sample.inA)
               ++ map Message.content added.
Proof.
  cbv zeta. split; [reflexivity|].
  eexists. split; [vm_compute; reflexivity|].
  exact (messages_only_grow_between_seeds
           Sample.ctx
           [ChatMessage Sample.rnd
                        (Sample.msg "m1" Sample.hello_cipher sent "A");
            MessageStatusUpdated "m1" read;
            ClickRoom Sample.roomB;
            ChangeSearch "he"]
           Sample.inA _ eq_refl ltac:(vm_compute; reflexivity)).
Defined.

Lemma setMessages_same (st : State) : setMessages (messages st) st = st.
Proof. now destruct st. Qed.

(** X5: a 'message status updated' event whose id no stored message has
    changes nothing. *)
Theorem status_update_for_unknown_id_is_ignored (messageId : string)
        (s : Status) (st : State) :
  (forall m, In m (messages st) -> Message.id m <> messageId) ->
  on_message_status_updated messageId s st = st.
Proof.
  intros H. unfold on_message_status_updated.
  assert (forall l : list Message.t,
             (forall m, In m l -> Message.id m <> messageId) ->
             map (fun msg =>
                    if String.eqb (Message.id msg) messageId
                    then Message.with_status s msg
                    else msg) l = l) as Hmap.
  { induction l as [|m l IH]; intros Hl; simpl; [reflexivity|].
    destruct (String.eqb_spec (Message.id m) messageId) as [E|_].
    - exfalso. apply (Hl m); [now left|exact E].
    - f_equal. apply IH. intros m' Hin. apply Hl. now right. }
  rewrite (Hmap _ H). apply setMessages_same.
Qed.

Lemma status_update_for_unknown_id_is_ignored_witness :
  let st := setMessages [Sample.msg "m1" "hi" sent "A"] Sample.inA in
  (forall m, In m (messages st) -> Message.id m <> "m9")
  /\ on_message_status_updated "m9" read st = st.
Proof.
  cbv zeta.
  assert (forall m,
             In m (messages (setMessages [Sample.msg "m1" "hi" sent "A"]
                                         Sample.inA)) ->
             Message.id m <> "m9") as H.
  { intros m [<-|[]]. discriminate. }
  split; [exact H|].
  exact (status_update_for_unknown_id_is_ignored
           "m9" read
           (setMessages [Sample.msg "m1" "hi" sent "A"] Sample.inA) H).
Defined.

(** ** The ciphertext string *)

Lemma stringify_chars_length (l : bytes) :
  List.length (Base64.stringify_chars l)
  = (4 * ((List.length l + 2) / 3))%nat.
Proof.
  induction l as [|x|x y|x y z r IH] using list_ind3; try reflexivity.
  cbn [Base64.stringify_chars List.length]. rewrite IH.
  replace (S (S (S (List.length r))) + 2)%nat
    with (1 * 3 + (List.length r + 2))%nat by lia.
  rewrite Nat.div_add_l by lia. lia.
Qed.

Lemma string_of_bytes_length (l : bytes) :
  String.length (string_of_bytes l) = List.length l.
Proof. induction l as [|a l IH]; simpl; [reflexivity|now rewrite IH]. Qed.

Lemma pad_length_exact (data : bytes) :
  List.length (Pkcs7.pad data)
  = (16 * (List.length data / 16 + 1))%nat.
Proof.
  unfold Pkcs7.pad, Pkcs7.blockSizeBytes.
  rewrite length_app, repeat_length.
  pose proof (Nat.div_mod_eq (List.length data) 16).
  pose proof (Nat.mod_upper_bound (List.length data) 16).
  lia.
Qed.

(** What [CryptoJS.AES.encrypt] returns when it returns: the salt drawn,
    and a ciphertext of whole blocks, one more than the message fills. *)
Lemma AES_encrypt_shape (rnd : nat -> byte) (message password : string)
      (cp : CipherParams) :
  AES.encrypt rnd message password = Normal cp ->
  salt cp = Some (random rnd 8)
  /\ List.length (ciphertext cp)
     = (16 * (List.length (bytes_of_string message) / 16 + 1))%nat.
Proof.
  unfold AES.encrypt, AES.derive, Utf8.parse.
  destruct (valid_utf8 (bytes_of_string password)); cbn [bind];
    [|discriminate].
  destruct (valid_utf8 (bytes_of_string message)); cbn [bind];
    [|discriminate].
  intros H. inversion H; subst cp; clear H. cbn [salt ciphertext fst snd].
  split; [reflexivity|].
  set (padded := Pkcs7.pad (bytes_of_string message)).
  pose proof (pad_length_exact (bytes_of_string message)) as Hn.
  fold padded in Hn.
  destruct (whole_blocks _ padded Hn) as [bl [Hall [Hlen Hcat]]].
  assert (blocks (List.length padded) padded = bl) as Hbl.
  { replace (blocks (List.length padded) padded)
      with (blocks (List.length padded) (List.concat bl))
      by now rewrite Hcat.
    apply blocks_concat; [assumption|]. unfold bytes in *. lia. }
  rewrite Hbl.
  rewrite concat_blocks_length by now apply CBC_encrypt_lengths.
  now rewrite CBC_encrypt_count, Hlen.
Qed.

Lemma encryptMessage_inv (ctx : Context) (rnd : nat -> byte)
      (P C : string) :
  encryptMessage ctx rnd P = Normal C ->
  exists ct k i,
    C = OpenSSL.stringify
          {| ciphertext := ct; salt := Some (random rnd 8);
             key := k; iv := i |}
    /\ List.length ct
       = (16 * (List.length (bytes_of_string P) / 16 + 1))%nat.
Proof.
  unfold encryptMessage. intros H.
  destruct (AES.encrypt rnd P (secretKey ctx)) as [cp|e] eqn:E;
    cbn [bind] in H; [|discriminate].
  inversion H; subst C; clear H.
  destruct (AES_encrypt_shape _ _ _ _ E) as [Hs Hl].
  destruct cp as [ct s k i]. cbn [salt ciphertext] in Hs, Hl. subst s.
  exists ct, k, i. split; [reflexivity|exact Hl].
Qed.

(** X6: whenever [encryptMessage] returns, the ciphertext string starts
    with the ten characters "U2FsdGVkX1" (the Base64 of the salt header),
    and its length is determined by the length n in bytes of the UTF-8
    encoding of the plaintext alone: 4 * ((16 * (n / 16) + 34) / 3)
    characters, whatever the key and the salt. *)
Theorem ciphertext_prefix_and_length (ctx : Context) (rnd : nat -> byte)
        (P C : string) :
  encryptMessage ctx rnd P = Normal C ->
  (exists rest, C = "U2FsdGVkX1" ++ rest)%string
  /\ String.length C
     = (4 * ((16 * (List.length (bytes_of_string P) / 16) + 34) / 3))%nat.
Proof.
  intros H. destruct (encryptMessage_inv ctx rnd P C H) as [ct [k [i [-> Hl]]]].
  unfold OpenSSL.stringify, Base64.stringify. cbn [salt ciphertext].
  split.
  - unfold OpenSSL.magic, random.
    cbn [bytes_of_string list_ascii_of_string seq map app
         Base64.stringify_chars].
    eexists. cbn [string_of_bytes string_of_list_ascii]. reflexivity.
  - rewrite string_of_bytes_length, stringify_chars_length.
    rewrite !length_app. unfold random. rewrite length_map, length_seq, Hl.
    cbn [OpenSSL.magic bytes_of_string list_ascii_of_string List.length].
    f_equal. f_equal. lia.
Qed.

Lemma ciphertext_prefix_and_length_witness :
  encryptMessage Sample.ctx Sample.rnd "hello" = Normal Sample.hello_cipher
  /\ (exists rest, Sample.hello_cipher = "U2FsdGVkX1" ++ rest)%string
  /\ String.length Sample.hello_cipher
     = (4 * ((16 * (List.length (bytes_of_string "hello") / 16) + 34) / 3))%nat.
Proof.
  assert (encryptMessage Sample.ctx Sample.rnd "hello"
          = Normal Sample.hello_cipher) as H by (vm_compute; reflexivity).
  split; [exact H|].
  exact (ciphertext_prefix_and_length
           Sample.ctx Sample.rnd "hello" Sample.hello_cipher H).
Defined.

(** X7: the ciphertext string carries the salt it was made with: parsing
    the string gives that salt back, so two encryptions whose salts differ
    never give the same string, whatever the plaintexts and the keys. *)
Theorem ciphertexts_with_different_salts_differ (ctx ctx' : Context)
        (rnd rnd' : nat -> byte) (P P' C C' : string) :
  encryptMessage ctx rnd P = Normal C ->
  encryptMessage ctx' rnd' P' = Normal C' ->
  random rnd 8 <> random rnd' 8 ->
  salt (OpenSSL.parse C) = Some (random rnd 8)
  /\ salt (OpenSSL.parse C') = Some (random rnd' 8)
  /\ C <> C'.
Proof.
  intros H H' Hne.
  destruct (encryptMessage_inv ctx rnd P C H) as [ct [k [i [-> _]]]].
  destruct (encryptMessage_inv ctx' rnd' P' C' H') as [ct' [k' [i' [-> _]]]].
  destruct (OpenSSL_parse_stringify rnd ct k i) as [_ Hs].
  destruct (OpenSSL_parse_stringify rnd' ct' k' i') as [_ Hs'].
  cbv zeta in Hs, Hs'.
  split; [exact Hs|]. split; [exact Hs'|].
  intros Heq. rewrite Heq in Hs. rewrite Hs in Hs'.
  inversion Hs'. congruence.
Qed.

Lemma ciphertexts_with_different_salts_differ_witness :
  let rnd' := fun i : nat => ascii_of_nat (i + 2) in
  encryptMessage Sample.ctx Sample.rnd "hello" = Normal Sample.hello_cipher
  /\ encryptMessage Sample.ctx rnd' "hello"
     = Normal "U2FsdGVkX18CAwQFBgcICSbMzhWONce+FJgBuwTvK7U="
  /\ random Sample.rnd 8 <> random rnd' 8
  /\ salt (OpenSSL.parse Sample.hello_cipher) = Some (random Sample.rnd 8)
  /\ salt (OpenSSL.parse "U2FsdGVkX18CAwQFBgcICSbMzhWONce+FJgBuwTvK7U=")
     = Some (random rnd' 8)
  /\ Sample.hello_cipher <> "U2FsdGVkX18CAwQFBgcICSbMzhWONce+FJgBuwTvK7U=".
Proof.
  cbv zeta.
  assert (encryptMessage Sample.ctx Sample.rnd "hello"
          = Normal Sample.hello_cipher) as H by (vm_compute; reflexivity).
  assert (encryptMessage Sample.ctx (fun i : nat => ascii_of_nat (i + 2))
                         "hello"
          = Normal "U2FsdGVkX18CAwQFBgcICSbMzhWONce+FJgBuwTvK7U=") as H'
      by (vm_compute; reflexivity).
  assert (random Sample.rnd 8 <> random (fun i : nat => ascii_of_nat (i + 2)) 8)
    as Hne by (vm_compute; discriminate).
  split; [exact H|]. split; [exact H'|]. split; [exact Hne|].
  exact (ciphertexts_with_different_salts_differ
           Sample.ctx Sample.ctx Sample.rnd _ "hello" "hello" _ _ H H' Hne).
Defined.

(** X8: clients whose key variable is unset, empty or set to
    "default-secret-key" all use the fallback key: what one of them
    encrypts (well-formed text), any of them decrypts back. *)
Theorem default_key_clients_interoperate (ctx1 ctx2 : Context)
        (rnd rnd' : nat -> byte) (P : string) :
  uses_default_key ctx1 -> uses_default_key ctx2 ->
  valid_utf8 (bytes_of_string P) = true ->
  exists C,
    encryptMessage ctx1 rnd P = Normal C
    /\ decryptMessage ctx2 rnd' C = Normal P.
Proof.
  intros H1 H2 HP.
  assert (forall ctx, uses_default_key ctx ->
                      secretKey ctx = "default-secret-key") as Hk.
  { intros ctx [E|[E|E]]; unfold secretKey; now rewrite E. }
  destruct (AES_decrypt_encrypt rnd rnd' P "default-secret-key" eq_refl HP)
    as [cp [Henc Hdec]].
  exists (OpenSSL.stringify cp). unfold encryptMessage, decryptMessage.
  rewrite (Hk _ H1), (Hk _ H2), Henc, Hdec. cbn [bind].
  split; [reflexivity|].
  unfold Utf8.stringify. rewrite HP. now rewrite string_of_bytes_of_string.
Qed.

Lemma default_key_clients_interoperate_witness :
  let ctx2 := {| NEXT_PUBLIC_ENCRYPTION_KEY := Some "";
                 session_user_id := "userB" |} in
  uses_default_key Sample.ctx
  /\ uses_default_key ctx2
  /\ valid_utf8 (bytes_of_string "hello") = true
  /\ exists C,
      encryptMessage Sample.ctx Sample.rnd "hello" = Normal C
      /\ decryptMessage ctx2 Sample.rnd C = Normal "hello".
Proof.
  cbv zeta.
  assert (uses_default_key Sample.ctx) as H1 by (left; reflexivity).
  assert (uses_default_key
            {| NEXT_PUBLIC_ENCRYPTION_KEY := Some "";
               session_user_id := "userB" |}) as H2
      by (right; left; reflexivity).
  split; [exact H1|]. split; [exact H2|]. split; [reflexivity|].
  exact (default_key_clients_interoperate
           Sample.ctx _ Sample.rnd Sample.rnd "hello" H1 H2 eq_refl).
Defined.

(** ** Attachments *)

(** X9: a file is never sent as a text message; choosing no file does
    nothing.  With a room selected and the socket there, choosing a file
    whose data URL is well-formed text emits one 'chat message' with the
    kind given by the MIME type (image for "image/...", video for
    "video/...", file otherwise); a client with the same key and a room of
    the same id selected that receives a message with that ciphertext and
    kind stores it with the data URL as content and renders it as an image,
    a video or a download link accordingly. *)
Theorem attachment_arrives_and_renders_by_kind (ctx1 ctx2 : Context)
        (rnd rnd' : nat -> byte) (f : File) (rest : list File)
        (r r2 : Room.t) (st1 st2 : State) :
  selectedRoom st1 = Some r ->
  socketRef st1 = true ->
  trim (File_result f) <> "" ->
  secretKey ctx1 = secretKey ctx2 ->
  valid_utf8 (bytes_of_string (secretKey ctx1)) = true ->
  valid_utf8 (bytes_of_string (File_result f)) = true ->
  selectedRoom st2 = Some r2 ->
  Room.id r2 = Room.id r ->
  handleFileUpload ctx1 rnd [] st1 = Normal st1
  /\ upload_kind (File_type f) <> text
  /\ exists C st1',
      handleFileUpload ctx1 rnd (f :: rest) st1 = Normal st1'
      /\ emitted st1'
         = emitted st1
           ++ [(now st1,
                emit_chat_message (Room.id r) C (upload_kind (File_type f)))]
      /\ forall echo,
          Message.roomId echo = Some (Room.id r) ->
          Message.content echo = C ->
          Message.type echo = upload_kind (File_type f) ->
          exists m,
            on_chat_message ctx2 rnd' echo st2
            = Normal (setMessages (messages st2 ++ [m]) st2)
            /\ Message.content m = File_result f
            /\ renderMessage m
               = match upload_kind (File_type f) with
                 | image => img (File_result f)
                 | video => video_element (File_result f)
                 | _ => download_link (File_result f)
                 end.
Proof.
  intros Hsel Hsock Htrim Hkeys Hk Hc Hsel2 Hid.
  split; [reflexivity|]. split.
  { unfold upload_kind.
    destruct (startsWith (File_type f) "image/"); [discriminate|].
    destruct (startsWith (File_type f) "video/"); discriminate. }
  destruct (AES_decrypt_encrypt rnd rnd' (File_result f) (secretKey ctx1)
                                Hk Hc) as [cp [Hcp Hbytes]].
  exists (OpenSSL.stringify cp). eexists.
  unfold handleFileUpload, handleSendMessage, encryptMessage.
  destruct (String.eqb_spec (trim (File_result f)) "") as [E|_];
    [contradiction|].
  cbn [negb]. rewrite Hsel, Hcp. cbn [bind].
  split; [reflexivity|].
  unfold emit. rewrite Hsock. split; [reflexivity|].
  intros echo Hroom Hcontent Htype.
  exists (Message.with_content (File_result f) echo).
  unfold on_chat_message, decryptMessage.
  rewrite Hsel2, Hroom. cbn [option_map opt_string_eqb].
  rewrite Hid, String.eqb_refl, Hcontent, <- Hkeys, Hbytes. cbn [bind].
  unfold Utf8.stringify. rewrite Hc, string_of_bytes_of_string. cbn [bind].
  split; [reflexivity|]. split; [reflexivity|].
  unfold renderMessage. cbn [Message.type Message.with_content
                              Message.content].
  rewrite Htype. unfold upload_kind.
  destruct (startsWith (File_type f) "image/"); [reflexivity|].
  destruct (startsWith (File_type f) "video/"); reflexivity.
Qed.

Lemma attachment_arrives_and_renders_by_kind_witness :
  let f := {| File_type := "image/png";
              File_result := "data:image/png;base64,iVBORw0KGgo=" |} in
  let rB := setSelectedRoom (Some Sample.roomA) initial in
  selectedRoom Sample.inA = Some Sample.roomA
  /\ socketRef Sample.inA = true
  /\ trim (File_result f) <> ""
  /\ secretKey Sample.ctx = secretKey Sample.ctx
  /\ valid_utf8 (bytes_of_string (secretKey Sample.ctx)) = true
  /\ valid_utf8 (bytes_of_string (File_result f)) = true
  /\ upload_kind (File_type f) = image
  /\ exists C st1',
      handleFileUpload Sample.ctx Sample.rnd [f] Sample.inA = Normal st1'
      /\ emitted st1'
         = emitted Sample.inA
           ++ [(now Sample.inA,
                emit_chat_message (Room.id Sample.roomA) C
                                  (upload_kind (File_type f)))]
      /\ forall echo,
          Message.roomId echo = Some (Room.id Sample.roomA) ->
          Message.content echo = C ->
          Message.type echo = upload_kind (File_type f) ->
          exists m,
            on_chat_message Sample.ctx Sample.rnd echo rB
            = Normal (setMessages (messages rB ++ [m]) rB)
            /\ Message.content m = File_result f
            /\ renderMessage m
               = match upload_kind (File_type f) with
                 | image => img (File_result f)
                 | video => video_element (File_result f)
                 | _ => download_link (File_result f)
                 end.
Proof.
  cbv zeta.
  assert (trim "data:image/png;base64,iVBORw0KGgo=" <> "") as Ht
      by (vm_compute; discriminate).
  split; [reflexivity|]. split; [reflexivity|]. split; [exact Ht|].
  split; [reflexivity|]. split; [reflexivity|]. split; [reflexivity|].
  split; [reflexivity|].
  exact (proj2 (proj2
    (attachment_arrives_and_renders_by_kind
       Sample.ctx Sample.ctx Sample.rnd Sample.rnd
       {| File_type := "image/png";
          File_result := "data:image/png;base64,iVBORw0KGgo=" |}
       [] Sample.roomA Sample.roomA Sample.inA
       (setSelectedRoom (Some Sample.roomA) initial)
       eq_refl eq_refl Ht eq_refl eq_refl eq_refl eq_refl eq_refl))).
Defined.

(** ** Search *)





(** ** Messages for other rooms, and typing while sending *)

(** X11: an inbound 'chat message' whose room id is not that of the
    selected room is dropped without being decrypted: the handler returns
    with the state as it was, whatever the content, and selecting a room
    afterwards does not bring the message back. *)
Theorem message_for_other_room_is_dropped (ctx : Context)
        (rnd : nat -> byte) (msg : Message.t) (r' : Room.t) (st : State) :
  option_map Room.id (selectedRoom st) <> Message.roomId msg ->
  on_chat_message ctx rnd msg st = Normal st
  /\ run ctx [ChatMessage rnd msg; ClickRoom r'] st
     = Normal (click_room r' st)
  /\ messages (click_room r' st) = messages st.
Proof.
  intros Hne.
  assert (on_chat_message ctx rnd msg st = Normal st) as H.
  { unfold on_chat_message.
    destruct (opt_string_eqb (option_map Room.id (selectedRoom st))
                             (Message.roomId msg)) eqn:E; [|reflexivity].
    apply opt_string_eqb_eq in E. contradiction. }
  split; [exact H|]. split; [|reflexivity].
  cbn [run step]. rewrite H. reflexivity.
Qed.

Lemma message_for_other_room_is_dropped_witness :
  let msg := Sample.msg "m7" Sample.hello_cipher_old sent "B" in
  option_map Room.id (selectedRoom Sample.inA) <> Message.roomId msg
  /\ decryptMessage Sample.ctx Sample.rnd (Message.content msg)
     = Throw (Error "Malformed UTF-8 data")
  /\ on_chat_message Sample.ctx Sample.rnd msg Sample.inA = Normal Sample.inA
  /\ run Sample.ctx [ChatMessage Sample.rnd msg; ClickRoom Sample.roomB]
         Sample.inA
     = Normal (click_room Sample.roomB Sample.inA)
  /\ messages (click_room Sample.roomB Sample.inA) = messages Sample.inA.
Proof.
  cbv zeta.
  assert (option_map Room.id (selectedRoom Sample.inA)
          <> Message.roomId
               (Sample.msg "m7" Sample.hello_cipher_old sent "B")) as Hne
      by discriminate.
  split; [exact Hne|]. split; [vm_compute; reflexivity|].
  exact (message_for_other_room_is_dropped
           Sample.ctx Sample.rnd
           (Sample.msg "m7" Sample.hello_cipher_old sent "B")
           Sample.roomB Sample.inA Hne).
Defined.

(** X12: sending does not stop the typing timer.  With a room selected,
    the socket there, no timeout pending and positive handles, typing a
    draft of well-formed, non-blank text, submitting it at once and then
    staying silent for 2000 ms or more emits, in this order: typing=true,
    the 'chat message' whose ciphertext decrypts to the draft, and
    typing=false 2000 ms after the keystroke; the draft is empty
    afterwards. *)
Theorem typing_stop_still_follows_a_send (ctx : Context)
        (rnd rnd' : nat -> byte) (r : Room.t) (v : string) (d : Z)
        (st : State) :
  selectedRoom st = Some r -> socketRef st = true -> timers st = [] ->
  nextHandle st <> 0%nat ->
  trim v <> "" ->
  valid_utf8 (bytes_of_string (secretKey ctx)) = true ->
  valid_utf8 (bytes_of_string v) = true ->
  2000 <= d ->
  exists C st',
    run ctx [ChangeInput v; Submit rnd; Elapse d] st = Normal st'
    /\ decryptMessage ctx rnd' C = Normal v
    /\ newMessage st' = ""
    /\ emitted st'
       = emitted st
         ++ [(now st, emit_typing (Room.id r) true);
             (now st, emit_chat_message (Room.id r) C text);
             (now st + 2000, emit_typing (Room.id r) false)].
Proof.
  intros Hsel Hsock Htim Hnh Htrim Hk Hv Hd.
  destruct (AES_decrypt_encrypt rnd rnd' v (secretKey ctx) Hk Hv)
    as [cp [Hcp Hbytes]].
  assert (encryptMessage ctx rnd v = Normal (OpenSSL.stringify cp))
    as Henc by (unfold encryptMessage; now rewrite Hcp).
  assert (String.eqb (trim v) "" = false) as Et
      by (now apply String.eqb_neq).
  assert ((now st + 2000 <=? now st + d) = true) as E
      by (apply Z.leb_le; lia).
  exists (OpenSSL.stringify cp).
  destruct st as [rs sel ms nm sb ty sq up po so ref t ts nh out].
  cbn [selectedRoom socketRef timers nextHandle now] in *.
  subst sel so ts.
  destruct nh as [|nh]; [congruence|].
  assert (exists st',
    run ctx [ChangeInput v; Submit rnd; Elapse d]
        {| rooms := rs; selectedRoom := Some r; messages := ms;
           newMessage := nm; isSidebarOpen := sb; isTyping := ty;
           searchQuery := sq; userProfile := up; isProfileOpen := po;
           socketRef := true; typingTimeoutRef := ref; now := t;
           timers := []; nextHandle := S nh; emitted := out |}
    = Normal st'
    /\ newMessage st' = ""
    /\ emitted st'
       = out ++ [(t, emit_typing (Room.id r) true);
                 (t, emit_chat_message (Room.id r)
                                       (OpenSSL.stringify cp) text);
                 (t + 2000, emit_typing (Room.id r) false)]) as H.
  { destruct ref as [[|h]|];
      cbn -[encryptMessage trim String.eqb Z.add Z.leb Z.max];
      unfold handleSendMessage, setTimeout_typing, clearTimeout, with_world,
        setNewMessage;
      cbn -[encryptMessage trim String.eqb Z.add Z.leb Z.max];
      rewrite Et; cbn -[encryptMessage trim String.eqb Z.add Z.leb Z.max];
      rewrite Henc;
      unfold elapse, fire, emit, setNewMessage, with_world;
      cbn -[encryptMessage trim String.eqb Z.add Z.leb Z.max];
      rewrite E; cbn -[encryptMessage trim String.eqb Z.add Z.leb Z.max];
      (eexists; split; [reflexivity|]; split; [reflexivity|]);
      cbn [emitted];
      replace (Z.max t (t + 2000)) with (t + 2000) by lia;
      rewrite <- !app_assoc; reflexivity. }
  destruct H as [st' [Hrun [Hnm Hem]]].
  exists st'. split; [exact Hrun|]. split; [|split; [exact Hnm|exact Hem]].
  unfold decryptMessage, Utf8.stringify. rewrite Hbytes. cbn [bind].
  now rewrite Hv, string_of_bytes_of_string.
Qed.

Lemma typing_stop_still_follows_a_send_witness :
  selectedRoom Sample.inA = Some Sample.roomA
  /\ socketRef Sample.inA = true
  /\ timers Sample.inA = []
  /\ nextHandle Sample.inA <> 0%nat
  /\ trim "hello" <> ""
  /\ valid_utf8 (bytes_of_string (secretKey Sample.ctx)) = true
  /\ valid_utf8 (bytes_of_string "hello") = true
  /\ 2000 <= 2500
  /\ exists C st',
      run Sample.ctx [ChangeInput "hello"; Submit Sample.rnd; Elapse 2500]
          Sample.inA = Normal st'
      /\ decryptMessage Sample.ctx Sample.rnd C = Normal "hello"
      /\ newMessage st' = ""
      /\ emitted st'
         = emitted Sample.inA
           ++ [(now Sample.inA, emit_typing (Room.id Sample.roomA) true);
               (now Sample.inA,
                emit_chat_message (Room.id Sample.roomA) C text);
               (now Sample.inA + 2000,
                emit_typing (Room.id Sample.roomA) false)].
Proof.
  assert (nextHandle Sample.inA <> 0%nat) as Hnh by discriminate.
  assert (trim "hello" <> "") as Ht by (vm_compute; discriminate).
  assert (2000 <= 2500) as Hd by lia.
  split; [reflexivity|]. split; [reflexivity|]. split; [reflexivity|].
  split; [exact Hnh|]. split; [exact Ht|]. split; [reflexivity|].
  split; [reflexivity|]. split; [exact Hd|].
  exact (typing_stop_still_follows_a_send
           Sample.ctx Sample.rnd Sample.rnd Sample.roomA "hello" 2500
           Sample.inA eq_refl eq_refl eq_refl Hnh Ht eq_refl eq_refl Hd).
Defined.
